(** * OCP web viewer: the WebSocket bridge [comms.js] and the splash scene [logo()]

    A shallow embedding of [src/ocp_web/static/js/comms.js] (class [Comms])
    and of the [logo()] module, with the platform objects they touch
    (JavaScript strings and values, [JSON], [WebSocket], [setTimeout],
    [window.postMessage], [console]) modelled next to them. *)

From Stdlib Require Import Ascii.
From stdpp Require Import base decidable option list numbers strings.

Local Set Warnings "-register-all".

(** ** JavaScript strings and values *)

(** A JavaScript string is a sequence of UTF-16 code units; [data[0]],
    [data.length] and [data.substring(2)] all count code units. *)
Definition jsstring : Type := list N.

(** [js "L:"] is the JavaScript string with the code units of an ASCII literal. *)
Definition js (s : string) : jsstring :=
  (λ a : ascii, N_of_ascii a) <$> String.list_ascii_of_string s.

(** The values that JSON text denotes (and that object and array literals
    of such values build).  A number [JNumber m e] is the exact decimal
    [m * 10^e] of its literal; rounding to an IEEE double is not modelled.
    An object is its list of own properties in insertion order. *)
Inductive JSValue : Type :=
| JNull
| JBool (b : bool)
| JNumber (m e : Z)
| JString (s : jsstring)
| JArray (items : list JSValue)
| JObject (props : list (jsstring * JSValue)).

(** Property read [o[k]] on own properties; [None] is [undefined]. *)
Fixpoint assoc (k : jsstring) (props : list (jsstring * JSValue)) : option JSValue :=
  match props with
  | [] => None
  | (k', v) :: rest => if bool_decide (k = k') then Some v else assoc k rest
  end.

Definition get_prop (k : jsstring) (v : JSValue) : option JSValue :=
  match v with
  | JObject props => assoc k props
  | _ => None
  end.

(** Property write: an existing key keeps its place and takes the new value,
    a new key goes last (what [JSON.parse] does with duplicate keys). *)
Fixpoint set_prop (k : jsstring) (v : JSValue) (props : list (jsstring * JSValue))
  : list (jsstring * JSValue) :=
  match props with
  | [] => [(k, v)]
  | (k', v') :: rest =>
      if bool_decide (k = k') then (k', v) :: rest else (k', v') :: set_prop k v rest
  end.

(** ** [JSON.parse] (ECMA-404 grammar), [None] standing for the SyntaxError *)

Module JSON.
Local Open Scope N_scope.

Definition QUOTE : N := 34.
Definition BACKSLASH : N := 92.

Definition is_ws (c : N) : bool :=
  (c =? 32) || (c =? 9) || (c =? 10) || (c =? 13).

Fixpoint skip_ws (s : jsstring) : jsstring :=
  match s with
  | c :: r => if is_ws c then skip_ws r else s
  | [] => []
  end.

Definition is_digit (c : N) : bool := (48 <=? c) && (c <=? 57).

Definition hex_val (c : N) : option N :=
  if is_digit c then Some (c - 48)
  else if (97 <=? c) && (c <=? 102) then Some (c - 87)
  else if (65 <=? c) && (c <=? 70) then Some (c - 55)
  else None.

Definition hex4 (a b c d : N) : option N :=
  match hex_val a, hex_val b, hex_val c, hex_val d with
  | Some x, Some y, Some z, Some w => Some (((x * 16 + y) * 16 + z) * 16 + w)
  | _, _, _, _ => None
  end.

(** The characters of a string literal, after its opening quote. *)
Fixpoint parse_chars (s : jsstring) (acc : jsstring) : option (jsstring * jsstring) :=
  match s with
  | [] => None
  | c :: r =>
      if c =? QUOTE then Some (rev acc, r)
      else if c =? BACKSLASH then
        match r with
        | [] => None
        | e :: r1 =>
            if (e =? QUOTE) || (e =? BACKSLASH) || (e =? 47) then parse_chars r1 (e :: acc)
            else if e =? 98 then parse_chars r1 (8 :: acc)
            else if e =? 102 then parse_chars r1 (12 :: acc)
            else if e =? 110 then parse_chars r1 (10 :: acc)
            else if e =? 114 then parse_chars r1 (13 :: acc)
            else if e =? 116 then parse_chars r1 (9 :: acc)
            else if e =? 117 then
              match r1 with
              | h1 :: h2 :: h3 :: h4 :: r2 =>
                  match hex4 h1 h2 h3 h4 with
                  | Some u => parse_chars r2 (u :: acc)
                  | None => None
                  end
              | _ => None
              end
            else None
        end
      else if c <? 32 then None
      else parse_chars r (c :: acc)
  end.

Fixpoint take_digits (s : jsstring) : list N * jsstring :=
  match s with
  | c :: r =>
      if is_digit c then let '(ds, r') := take_digits r in (c - 48 :: ds, r')
      else ([], s)
  | [] => ([], [])
  end.

Definition digits_value (ds : list N) : N :=
  fold_left (λ acc d, 10 * acc + d) ds 0.

Definition take_sign (s : jsstring) : bool * jsstring :=
  match s with
  | c :: r => if c =? 45 then (true, r) else (false, s)
  | [] => (false, s)
  end.

(** [. digits+], or nothing. *)
Definition take_fraction (s : jsstring) : option (list N * jsstring) :=
  match s with
  | c :: r =>
      if c =? 46 then
        match take_digits r with
        | ([], _) => None
        | (ds, r') => Some (ds, r')
        end
      else Some ([], s)
  | [] => Some ([], s)
  end.

(** [(e|E) (+|-)? digits+], or nothing. *)
Definition take_exponent (s : jsstring) : option (Z * jsstring) :=
  match s with
  | c :: r =>
      if (c =? 101) || (c =? 69) then
        let '(neg, r1) :=
          match r with
          | c1 :: r1 => if c1 =? 45 then (true, r1) else if c1 =? 43 then (false, r1) else (false, r)
          | [] => (false, r)
          end in
        match take_digits r1 with
        | ([], _) => None
        | (ds, r2) =>
            let x := Z.of_N (digits_value ds) in
            Some (if neg then (- x)%Z else x, r2)
        end
      else Some (0%Z, s)
  | [] => Some (0%Z, s)
  end.

Definition parse_number (s : jsstring) : option (JSValue * jsstring) :=
  let '(neg, s1) := take_sign s in
  match take_digits s1 with
  | ([], _) => None
  | (d :: ds, s2) =>
      if (d =? 0) && negb (bool_decide (ds = [])) then None
      else
        '(fr, s3) ← take_fraction s2;
        '(ex, s4) ← take_exponent s3;
        let mag := Z.of_N (digits_value ((d :: ds) ++ fr)) in
        Some (JNumber (if neg then (- mag)%Z else mag) (ex - Z.of_nat (length fr))%Z, s4)
  end.

Fixpoint strip_prefix (p s : jsstring) : option jsstring :=
  match p, s with
  | [], _ => Some s
  | a :: p', b :: s' => if a =? b then strip_prefix p' s' else None
  | _ :: _, [] => None
  end.

Definition parse_literal (word : string) (v : JSValue) (s : jsstring)
  : option (JSValue * jsstring) :=
  r ← strip_prefix (js word) s; Some (v, r).

(** Recursive descent.  Every call consumes fuel; a chain of calls is at
    most two calls long per character read, so [JSON_parse] below hands
    out twice the length of the text. *)
Fixpoint parse_value (fuel : nat) (s : jsstring) : option (JSValue * jsstring) :=
  match fuel with
  | O => None
  | S fuel' =>
      match skip_ws s with
      | [] => None
      | c :: r =>
          if c =? 123 then
            match skip_ws r with
            | c1 :: r1 =>
                if c1 =? 125 then Some (JObject [], r1)
                else parse_members fuel' (c1 :: r1) []
            | [] => None
            end
          else if c =? 91 then
            match skip_ws r with
            | c1 :: r1 =>
                if c1 =? 93 then Some (JArray [], r1)
                else parse_elements fuel' (c1 :: r1) []
            | [] => None
            end
          else if c =? QUOTE then
            '(str, r1) ← parse_chars r []; Some (JString str, r1)
          else if c =? 116 then parse_literal "true" (JBool true) (c :: r)
          else if c =? 102 then parse_literal "false" (JBool false) (c :: r)
          else if c =? 110 then parse_literal "null" JNull (c :: r)
          else parse_number (c :: r)
      end
  end
with parse_elements (fuel : nat) (s : jsstring) (acc : list JSValue)
  : option (JSValue * jsstring) :=
  match fuel with
  | O => None
  | S fuel' =>
      match parse_value fuel' s with
      | None => None
      | Some (v, r) =>
          match skip_ws r with
          | c :: r1 =>
              if c =? 44 then parse_elements fuel' r1 (v :: acc)
              else if c =? 93 then Some (JArray (rev (v :: acc)), r1)
              else None
          | [] => None
          end
      end
  end
with parse_members (fuel : nat) (s : jsstring) (acc : list (jsstring * JSValue))
  : option (JSValue * jsstring) :=
  match fuel with
  | O => None
  | S fuel' =>
      match skip_ws s with
      | c :: r =>
          if c =? QUOTE then
            match parse_chars r [] with
            | None => None
            | Some (k, r1) =>
                match skip_ws r1 with
                | c1 :: r2 =>
                    if c1 =? 58 then
                      match parse_value fuel' r2 with
                      | None => None
                      | Some (v, r3) =>
                          match skip_ws r3 with
                          | c2 :: r4 =>
                              if c2 =? 44 then parse_members fuel' r4 (set_prop k v acc)
                              else if c2 =? 125 then Some (JObject (set_prop k v acc), r4)
                              else None
                          | [] => None
                          end
                      end
                    else None
                | [] => None
                end
            end
          else None
      | [] => None
      end
  end.
End JSON.

(** [JSON.parse(text)]: one value between optional white space, nothing after. *)
Definition JSON_parse (text : jsstring) : option JSValue :=
  match JSON.parse_value (2 * length text + 2) text with
  | Some (v, r) =>
      match JSON.skip_ws r with
      | [] => Some v
      | _ :: _ => None
      end
  | None => None
  end.

(** A quoted JSON string literal, for writing JSON text without escapes. *)
Definition quoted (s : string) : jsstring := JSON.QUOTE :: js s ++ [JSON.QUOTE].


(** ** [JSON.stringify] on the values above *)

Module Stringify.
Local Open Scope N_scope.

Fixpoint uint_chars (u : Decimal.uint) : jsstring :=
  match u with
  | Decimal.Nil => []
  | Decimal.D0 u' => 48 :: uint_chars u'
  | Decimal.D1 u' => 49 :: uint_chars u'
  | Decimal.D2 u' => 50 :: uint_chars u'
  | Decimal.D3 u' => 51 :: uint_chars u'
  | Decimal.D4 u' => 52 :: uint_chars u'
  | Decimal.D5 u' => 53 :: uint_chars u'
  | Decimal.D6 u' => 54 :: uint_chars u'
  | Decimal.D7 u' => 55 :: uint_chars u'
  | Decimal.D8 u' => 56 :: uint_chars u'
  | Decimal.D9 u' => 57 :: uint_chars u'
  end.

Definition N_to_js (n : N) : jsstring := uint_chars (N.to_uint n).

Definition Z_to_js (z : Z) : jsstring :=
  if (z <? 0)%Z then 45 :: N_to_js (Z.abs_N z) else N_to_js (Z.abs_N z).

(** Digits of a positive integer without its trailing zeros, and how many
    zeros were dropped. *)
Fixpoint strip_zeros (rev_digits : jsstring) : jsstring * nat :=
  match rev_digits with
  | c :: r => if c =? 48 then let '(ds, k) := strip_zeros r in (ds, S k) else (rev rev_digits, O)
  | [] => ([], O)
  end.

(** Number::toString of the decimal [m * 10^e]. *)
Definition number_to_js (m e : Z) : jsstring :=
  if (m =? 0)%Z then js "0"
  else
    let '(ds, z) := strip_zeros (rev (N_to_js (Z.abs_N m))) in
    let k := Z.of_nat (length ds) in
    let n := (k + e + Z.of_nat z)%Z in
    let body :=
      if (k <=? n)%Z && (n <=? 21)%Z then ds ++ replicate (Z.to_nat (n - k)) 48
      else if (0 <? n)%Z && (n <=? 21)%Z then
        take (Z.to_nat n) ds ++ js "." ++ drop (Z.to_nat n) ds
      else if (-6 <? n)%Z && (n <=? 0)%Z then
        js "0." ++ replicate (Z.to_nat (- n)) 48 ++ ds
      else
        let ex := (if (n - 1 <? 0)%Z then js "e-" else js "e+") ++ N_to_js (Z.abs_N (n - 1)) in
        match ds with
        | [d] => d :: ex
        | d :: rest => d :: js "." ++ rest ++ ex
        | [] => ex
        end in
    if (m <? 0)%Z then 45 :: body else body.

Definition hex_digit (n : N) : N := if n <? 10 then 48 + n else 87 + n.

Definition unicode_escape (c : N) : jsstring :=
  js "\u" ++ [hex_digit (c / 4096 mod 16); hex_digit (c / 256 mod 16);
              hex_digit (c / 16 mod 16); hex_digit (c mod 16)].

Definition is_lead (c : N) : bool := (55296 <=? c) && (c <=? 56319).
Definition is_trail (c : N) : bool := (56320 <=? c) && (c <=? 57343).

(** QuoteJSONString, without the surrounding quotes. *)
Fixpoint escape (s : jsstring) : jsstring :=
  match s with
  | [] => []
  | c :: r =>
      if c =? JSON.QUOTE then [JSON.BACKSLASH; JSON.QUOTE] ++ escape r
      else if c =? JSON.BACKSLASH then [JSON.BACKSLASH; JSON.BACKSLASH] ++ escape r
      else if c =? 8 then js "\b" ++ escape r
      else if c =? 12 then js "\f" ++ escape r
      else if c =? 10 then js "\n" ++ escape r
      else if c =? 13 then js "\r" ++ escape r
      else if c =? 9 then js "\t" ++ escape r
      else if c <? 32 then unicode_escape c ++ escape r
      else if is_lead c then
        match r with
        | c' :: r' => if is_trail c' then c :: c' :: escape r' else unicode_escape c ++ escape r
        | [] => unicode_escape c
        end
      else if is_trail c then unicode_escape c ++ escape r
      else c :: escape r
  end.

Definition quote (s : jsstring) : jsstring := JSON.QUOTE :: escape s ++ [JSON.QUOTE].

Fixpoint join_comma (parts : list jsstring) : jsstring :=
  match parts with
  | [] => []
  | [p] => p
  | p :: rest => p ++ 44 :: join_comma rest
  end.
End Stringify.

Fixpoint JSON_stringify (v : JSValue) : jsstring :=
  match v with
  | JNull => js "null"
  | JBool true => js "true"
  | JBool false => js "false"
  | JNumber m e => Stringify.number_to_js m e
  | JString s => Stringify.quote s
  | JArray items =>
      js "[" ++ Stringify.join_comma
                  ((fix each (l : list JSValue) : list jsstring :=
                      match l with
                      | [] => []
                      | x :: l' => JSON_stringify x :: each l'
                      end) items) ++ js "]"
  | JObject props =>
      js "{" ++ Stringify.join_comma
                  ((fix each (l : list (jsstring * JSValue)) : list jsstring :=
                      match l with
                      | [] => []
                      | (k, x) :: l' =>
                          (Stringify.quote k ++ js ":" ++ JSON_stringify x) :: each l'
                      end) props) ++ js "}"
  end.



(** ** The page: sockets, timers, the window and the console *)

(** [WebSocket.readyState]. *)
Inductive ReadyState : Type := CONNECTING | OPEN | CLOSING | CLOSED.

Global Instance ReadyState_eq_dec : EqDecision ReadyState.
Proof. solve_decision. Defined.

(** A socket object of the browser.  [wire] lists the frames handed to the
    network, oldest first. *)
Record WebSocket : Type := mkWebSocket {
  url : jsstring;
  readyState : ReadyState;
  wire : list jsstring
}.

(** Socket objects live in a store and are held by reference: the browser
    changes the [readyState] of the very object [this.ws] points to. *)
Abbreviation ref := nat (only parsing).

(** The fields of a [Comms] object (constructor, lines 6-13). *)
Record Comms : Type := mkComms {
  host : jsstring;
  port : jsstring;
  ws : option ref;
  reconnectAttempts : Z;
  maxReconnectAttempts : Z;
  reconnectDelay : Z;
  messageQueue : list jsstring;
  isConnected : bool
}.

Inductive Level : Type := LOG | ERROR.

Record World : Type := mkWorld {
  this : Comms;
  sockets : list WebSocket;
  (** delays, in milliseconds, of the pending [setTimeout] callbacks; the
      only callback the class registers is [() => this.connect()] *)
  timers : list Z;
  (** messages given to [window.postMessage], oldest first *)
  posted : list JSValue;
  console : list (Level * list JSValue)
}.

(** Field updates. *)
Definition with_this (f : Comms → Comms) (w : World) : World :=
  mkWorld (f (this w)) (sockets w) (timers w) (posted w) (console w).
Definition with_sockets (f : list WebSocket → list WebSocket) (w : World) : World :=
  mkWorld (this w) (f (sockets w)) (timers w) (posted w) (console w).
Definition with_timers (f : list Z → list Z) (w : World) : World :=
  mkWorld (this w) (sockets w) (f (timers w)) (posted w) (console w).
Definition with_posted (f : list JSValue → list JSValue) (w : World) : World :=
  mkWorld (this w) (sockets w) (timers w) (f (posted w)) (console w).
Definition with_console (f : list (Level * list JSValue) → list (Level * list JSValue))
    (w : World) : World :=
  mkWorld (this w) (sockets w) (timers w) (posted w) (f (console w)).

Definition set_ws (v : option ref) (c : Comms) : Comms :=
  mkComms (host c) (port c) v (reconnectAttempts c) (maxReconnectAttempts c)
          (reconnectDelay c) (messageQueue c) (isConnected c).
Definition set_reconnectAttempts (v : Z) (c : Comms) : Comms :=
  mkComms (host c) (port c) (ws c) v (maxReconnectAttempts c)
          (reconnectDelay c) (messageQueue c) (isConnected c).
Definition set_messageQueue (v : list jsstring) (c : Comms) : Comms :=
  mkComms (host c) (port c) (ws c) (reconnectAttempts c) (maxReconnectAttempts c)
          (reconnectDelay c) v (isConnected c).
Definition set_isConnected (v : bool) (c : Comms) : Comms :=
  mkComms (host c) (port c) (ws c) (reconnectAttempts c) (maxReconnectAttempts c)
          (reconnectDelay c) (messageQueue c) v.

(** ** Statements that may throw: a state and exception monad *)

Inductive Exn : Type := TypeError | InvalidStateError | SyntaxError.

Inductive Completion (A : Type) : Type :=
| Normal (a : A)
| Throw (e : Exn).
Arguments Normal {A} a.
Arguments Throw {A} e.

Definition JS (A : Type) : Type := World → Completion A * World.

Definition js_ret {A} (a : A) : JS A := λ w, (Normal a, w).

Definition js_bind {A B} (f : A → JS B) (m : JS A) : JS B :=
  λ w, match m w with
       | (Normal a, w') => f a w'
       | (Throw e, w') => (Throw e, w')
       end.

Global Instance JS_ret : MRet JS := @js_ret.
Global Instance JS_bind : MBind JS := @js_bind.

Definition throw {A} (e : Exn) : JS A := λ w, (Throw e, w).

(** [try { body } catch (error) { handler }] *)
Definition try_catch {A} (body : JS A) (handler : Exn → JS A) : JS A :=
  λ w, match body w with
       | (Normal a, w') => (Normal a, w')
       | (Throw e, w') => handler e w'
       end.

Definition gets {A} (f : World → A) : JS A := λ w, (Normal (f w), w).
Definition modify (f : World → World) : JS unit := λ w, (Normal (), f w).

(** A call binds the formal parameters to the actual arguments by position;
    arguments beyond the formals are evaluated and bound to nothing. *)
Definition call1 {A B} (f : A → JS B) (arg : A) (surplus : list A) : JS B := f arg.

Definition exn_name (e : Exn) : JSValue :=
  JString (match e with
           | TypeError => js "TypeError"
           | InvalidStateError => js "InvalidStateError"
           | SyntaxError => js "SyntaxError"
           end).

Definition console_log (args : list JSValue) : JS unit :=
  modify (with_console (λ l, l ++ [(LOG, args)])).
Definition console_error (args : list JSValue) : JS unit :=
  modify (with_console (λ l, l ++ [(ERROR, args)])).

(** [window.postMessage(message, '*')]; the values of [JSValue] can all be cloned. *)
Definition window_postMessage (message : JSValue) : JS unit :=
  modify (with_posted (λ l, l ++ [message])).

(** [setTimeout(() => this.connect(), delay)] *)
Definition setTimeout (delay : Z) : JS unit :=
  modify (with_timers (λ l, l ++ [delay])).

(** [new WebSocket(url)]: a new object in state CONNECTING, or an exception
    (a URL the browser refuses); [accepted] says which. *)
Definition WebSocket_new (u : jsstring) (accepted : bool) : JS ref :=
  if accepted then
    r ← gets (λ w, length (sockets w));
    modify (with_sockets (λ l, l ++ [mkWebSocket u CONNECTING []]));;
    mret r
  else throw SyntaxError.

(** [socket.send(data)]: InvalidStateError while CONNECTING, the frame goes
    out when OPEN, and is dropped without an exception when CLOSING or CLOSED. *)
Definition WebSocket_send (r : ref) (data : jsstring) : JS unit :=
  s ← gets (λ w, sockets w !! r);
  match s with
  | None => throw TypeError
  | Some sock =>
      match readyState sock with
      | CONNECTING => throw InvalidStateError
      | OPEN =>
          modify (with_sockets
                    <[r := mkWebSocket (url sock) OPEN (wire sock ++ [data])]>)
      | CLOSING | CLOSED => mret ()
      end
  end.

(** [socket.close()]: starts the closing handshake unless already closing or closed. *)
Definition WebSocket_close (r : ref) : JS unit :=
  s ← gets (λ w, sockets w !! r);
  match s with
  | None => throw TypeError
  | Some sock =>
      match readyState sock with
      | CONNECTING | OPEN =>
          modify (with_sockets <[r := mkWebSocket (url sock) CLOSING (wire sock)]>)
      | CLOSING | CLOSED => mret ()
      end
  end.

(** ** [class Comms] *)

(** The table of [getMessageType] (lines 84-92). *)
Definition types : list (jsstring * jsstring) :=
  [ (js "C", js "command");
    (js "D", js "data");
    (js "S", js "config");
    (js "U", js "update");
    (js "L", js "listen");
    (js "B", js "backend");
    (js "R", js "response") ].

Fixpoint table_get (k : jsstring) (table : list (jsstring * jsstring)) : option jsstring :=
  match table with
  | [] => None
  | (k', v) :: rest => if bool_decide (k = k') then Some v else table_get k rest
  end.

(** [a || b] on a string or [undefined]: the empty string is falsy too. *)
Definition js_or (a : option jsstring) (b : jsstring) : jsstring :=
  match a with
  | Some (c :: s) => c :: s
  | Some [] | None => b
  end.

(** [getMessageType(typeChar)], lines 83-94, on keys of one code unit.  Its
    one caller passes [data[0]], a string of one code unit; [Object.prototype]
    has no property with such a name, so there the read [types[typeChar]]
    sees the seven own properties only.  On a longer key that names an
    inherited property ("constructor", "toString", ...) the source returns
    that property, which is no string; this definition does not model such
    keys, and the statements about it keep to keys of one code unit. *)
Definition getMessageType (typeChar : jsstring) : jsstring :=
  js_or (table_get typeChar types) (js "unknown").

(** [parseMessage(data)], lines 67-81; the result is [null] or an object. *)
Definition parseMessage (data : jsstring) : JSValue :=
  if (length data <? 2)%nat then JNull
  else
    let type := take 1 data in
    let content := drop 2 data in
    match JSON_parse content with
    | Some parsed =>
        JObject [(js "type", JString (getMessageType type)); (js "data", parsed)]
    | None =>
        JObject [(js "type", JString (getMessageType type)); (js "text", JString content)]
    end.

(** The guard of [send], line 104:
    [this.isConnected && this.ws && this.ws.readyState === WebSocket.OPEN]. *)
Definition can_transmit (w : World) : bool :=
  isConnected (this w) &&
  match ws (this w) with
  | Some r => bool_decide (readyState <$> sockets w !! r = Some OPEN)
  | None => false
  end.

(** [this.ws.send(message)]; reading [send] off [null] is a TypeError. *)
Definition this_ws_send (message : jsstring) : JS unit :=
  r ← gets (λ w, ws (this w));
  match r with
  | Some r => WebSocket_send r message
  | None => throw TypeError
  end.

(** [send(message)], lines 103-111: one formal parameter. *)
Definition send (message : jsstring) : JS unit :=
  ok ← gets can_transmit;
  if ok : bool then this_ws_send message
  else
    modify (with_this (λ c, set_messageQueue (messageQueue c ++ [message]) c));;
    console_log [JString (js "Message queued (not connected):"); JString message].

(** [sendStatus(message)], lines 96-101: [send] is called with two arguments. *)
Definition sendStatus (message : JSValue) : JS unit :=
  call1 send (js "U:")
        [JSON_stringify (JObject [(js "command", JString (js "status"));
                                  (js "text", message)])].

(** [attemptReconnect()], lines 113-124. *)
Definition attemptReconnect : JS unit :=
  c ← gets this;
  if bool_decide (reconnectAttempts c < maxReconnectAttempts c)%Z then
    modify (with_this (set_reconnectAttempts (reconnectAttempts c + 1)));;
    c ← gets this;
    console_log [JString (js "Attempting to reconnect ("
                          ++ Stringify.Z_to_js (reconnectAttempts c) ++ js "/"
                          ++ Stringify.Z_to_js (maxReconnectAttempts c) ++ js ")...")];;
    setTimeout (reconnectDelay c * reconnectAttempts c)
  else
    console_error [JString (js "Max reconnection attempts reached")].

(** [connect()], lines 18-65.  The four handlers assigned to the new socket
    are [ws_onopen], [ws_onmessage], [ws_onclose] and [ws_onerror] below. *)
Definition connect (accepted : bool) : JS unit :=
  try_catch
    (c ← gets this;
     r ← WebSocket_new (js "ws://" ++ host c ++ js ":" ++ port c ++ js "/") accepted;
     modify (with_this (set_ws (Some r))))
    (λ error,
       console_error [JString (js "Failed to create WebSocket:"); exn_name error];;
       attemptReconnect).

(** The [while] loop of lines 31-34.  Each round removes one message, so
    [fuel] rounds empty a queue of [fuel] messages. *)
Fixpoint drain (fuel : nat) : JS unit :=
  match fuel with
  | O => mret ()
  | S fuel' =>
      q ← gets (λ w, messageQueue (this w));
      match q with
      | [] => mret ()
      | message :: rest =>
          modify (with_this (set_messageQueue rest));;
          this_ws_send message;;
          drain fuel'
      end
  end.

(** [this.ws.onopen], lines 22-35. *)
Definition ws_onopen : JS unit :=
  console_log [JString (js "WebSocket connected")];;
  modify (with_this (set_isConnected true));;
  modify (with_this (set_reconnectAttempts 0));;
  call1 send (js "L:") [[]];;
  n ← gets (λ w, length (messageQueue (this w)));
  drain n.

(** What a message event carries: text, or binary data (Blob, ArrayBuffer). *)
Inductive MessageData : Type :=
| TextData (s : jsstring)
| BinaryData (bytes : list N).

(** [this.ws.onmessage], lines 37-48. *)
Definition ws_onmessage (data : MessageData) : JS unit :=
  try_catch
    (match data with
     | TextData s =>
         let message := parseMessage s in
         window_postMessage message
     | BinaryData _ => mret ()
     end)
    (λ error,
       console_error [JString (js "Error processing WebSocket message:"); exn_name error]).

(** [this.ws.onclose], lines 50-54. *)
Definition ws_onclose : JS unit :=
  console_log [JString (js "WebSocket disconnected")];;
  modify (with_this (set_isConnected false));;
  attemptReconnect.

(** [this.ws.onerror], lines 56-59. *)
Definition ws_onerror : JS unit :=
  console_error [JString (js "WebSocket error:")];;
  modify (with_this (set_isConnected false)).

(** [close()], lines 126-132. *)
Definition close : JS unit :=
  modify (with_this (set_isConnected false));;
  r ← gets (λ w, ws (this w));
  match r with
  | Some r =>
      WebSocket_close r;;
      modify (with_this (set_ws None))
  | None => mret ()
  end.

(** [new Comms(host, port)], lines 5-16, on a page without sockets or timers. *)
Definition fields (host port : jsstring) : Comms :=
  mkComms host port None 0 5 1000 [] false.

Definition constructor (host port : jsstring) (accepted : bool) : World :=
  snd (connect accepted (mkWorld (fields host port) [] [] [] [])).

(** ** What happens on the page, one event at a time *)

Inductive Event : Type :=
(** the connection of socket [i] is established: the browser sets OPEN and fires [open] *)
| SocketOpened (i : ref)
(** a message arrives on socket [i] *)
| SocketMessage (i : ref) (data : MessageData)
(** the connection of socket [i] is closed: the browser sets CLOSED, fires
    [error] first when it had to fail the connection, then [close] *)
| SocketClosed (i : ref) (failed : bool)
(** the [k]-th pending timer runs [this.connect()] *)
| TimerFired (k : nat) (accepted : bool)
(** the page calls a method *)
| CallSend (message : jsstring)
| CallSendStatus (message : JSValue)
| CallClose
(** the server starts the closing handshake on the open socket [i]: the
    browser sets CLOSING and runs no handler; the [close] event comes later *)
| SocketClosing (i : ref).

Definition state_of (w : World) (i : ref) : option ReadyState :=
  readyState <$> sockets w !! i.

Definition set_state (i : ref) (rs : ReadyState) (w : World) : World :=
  with_sockets (λ l, match l !! i with
                     | Some s => <[i := mkWebSocket (url s) rs (wire s)]> l
                     | None => l
                     end) w.

Definition enabled (ev : Event) (w : World) : bool :=
  match ev with
  | SocketOpened i => bool_decide (state_of w i = Some CONNECTING)
  | SocketMessage i _ =>
      bool_decide (state_of w i = Some OPEN) || bool_decide (state_of w i = Some CLOSING)
  | SocketClosed i _ =>
      bool_decide (is_Some (state_of w i)) && negb (bool_decide (state_of w i = Some CLOSED))
  | TimerFired k _ => bool_decide (k < length (timers w))%nat
  | CallSend _ | CallSendStatus _ | CallClose => true
  | SocketClosing i => bool_decide (state_of w i = Some OPEN)
  end.

(** An exception that leaves a handler or a method ends that run; the page
    goes on with the state reached. *)
Definition run (m : JS unit) (w : World) : World := snd (m w).

Definition fire (ev : Event) (w : World) : World :=
  match ev with
  | SocketOpened i => run ws_onopen (set_state i OPEN w)
  | SocketMessage _ data => run (ws_onmessage data) w
  | SocketClosed i failed =>
      run ws_onclose (if failed then run ws_onerror (set_state i CLOSED w)
                      else set_state i CLOSED w)
  | TimerFired k accepted => run (connect accepted) (with_timers (delete k) w)
  | CallSend message => run (send message) w
  | CallSendStatus message => run (sendStatus message) w
  | CallClose => run close w
  | SocketClosing i => set_state i CLOSING w
  end.

Inductive Reachable : World → Prop :=
| Reachable_new host port accepted : Reachable (constructor host port accepted)
| Reachable_fire w ev : Reachable w → enabled ev w = true → Reachable (fire ev w).

(** ** [logo()]: the splash scene *)

Definition logo : JSValue :=
  JObject
    [ (js "data",
       JObject
         [ (js "shapes",
            JObject
              [ (js "type", JString (js "shapes"));
                (js "shape",
                 JObject
                   [ (js "type", JString (js "assembly"));
                     (js "parts",
                      JArray
                        [ JObject
                            [ (js "type", JString (js "shapes"));
                              (js "shape", JObject [(js "ref", JNumber 0 0)]);
                              (js "state", JArray [JBool true; JBool true]);
                              (js "id", JString (js "logo"));
                              (js "name", JString (js "OCP Logo")) ] ]) ]);
                (js "instances",
                 JArray
                   [ JObject
                       [ (js "vertices",
                          JObject [ (js "buffer", JString (js "AQAAAAAA"));
                                    (js "codec", JString (js "b64"));
                                    (js "dtype", JString (js "float32")) ]);
                         (js "obj_vertices",
                          JObject [ (js "buffer", JString (js "AQAAAAAA"));
                                    (js "codec", JString (js "b64"));
                                    (js "dtype", JString (js "float32")) ]);
                         (js "normals",
                          JObject [ (js "buffer", JString (js "AQAAAAAA"));
                                    (js "codec", JString (js "b64"));
                                    (js "dtype", JString (js "float32")) ]);
                         (js "triangles",
                          JObject [ (js "buffer", JString (js "AQAAAAAA"));
                                    (js "codec", JString (js "b64"));
                                    (js "dtype", JString (js "int32")) ]);
                         (js "edges",
                          JObject [ (js "buffer", JString (js "AQAAAAAA"));
                                    (js "codec", JString (js "b64"));
                                    (js "dtype", JString (js "int32")) ]) ] ]);
                (js "bb",
                 JObject [ (js "xmin", JNumber (-10) 0); (js "xmax", JNumber 10 0);
                           (js "ymin", JNumber (-10) 0); (js "ymax", JNumber 10 0);
                           (js "zmin", JNumber (-10) 0); (js "zmax", JNumber 10 0) ]) ]) ]);
      (js "config",
       JObject
         [ (js "_splash", JBool true);
           (js "debug", JBool false);
           (js "glass", JBool false);
           (js "tools", JBool true);
           (js "tree_width", JNumber 240 0);
           (js "theme", JString (js "browser"));
           (js "control", JString (js "trackball"));
           (js "axes", JBool false);
           (js "grid", JBool false);
           (js "ortho", JBool false);
           (js "transparent", JBool false);
           (js "default_opacity", JNumber 1 0);
           (js "ambient_intensity", JNumber 1 0);
           (js "direct_intensity", JNumber 11 (-1));
           (js "metalness", JNumber 3 (-1));
           (js "roughness", JNumber 65 (-2));
           (js "default_color", JString (js "#e8b024"));
           (js "default_edgecolor", JString (js "#808080"));
           (js "zoom", JNumber 1 0);
           (js "reset_camera", JString (js "reset")) ]) ].

(** ** Reading a scene payload *)

(** A value and everything nested in it, outermost first. *)
Fixpoint subvalues (v : JSValue) : list JSValue :=
  v :: match v with
       | JArray items =>
           (fix each (l : list JSValue) : list JSValue :=
              match l with
              | [] => []
              | x :: l' => subvalues x ++ each l'
              end) items
       | JObject props =>
           (fix each (l : list (jsstring * JSValue)) : list JSValue :=
              match l with
              | [] => []
              | (_, x) :: l' => subvalues x ++ each l'
              end) props
       | _ => []
       end.

Definition path (keys : list string) (v : JSValue) : option JSValue :=
  foldl (λ o k, o ≫= get_prop (js k)) (Some v) keys.

Definition items_of (v : option JSValue) : list JSValue :=
  match v with
  | Some (JArray items) => items
  | _ => []
  end.

(** The scene of a payload, its Instance Table, and its Parts: the members
    of every [parts] array of the scene, groups within groups included. *)
Definition scene_of (payload : JSValue) : option JSValue := path ["data"; "shapes"] payload.

Definition instance_table (payload : JSValue) : list JSValue :=
  items_of (scene_of payload ≫= get_prop (js "instances")).

Definition parts_of (payload : JSValue) : list JSValue :=
  match scene_of payload with
  | Some scene => flat_map (λ v, items_of (get_prop (js "parts") v)) (subvalues scene)
  | None => []
  end.

(** The Shape Reference of a Part: the index under [shape.ref]. *)
Definition shape_ref (part : JSValue) : option Z :=
  match path ["shape"; "ref"] part with
  | Some (JNumber m 0) => Some m
  | _ => None
  end.

Definition resolves (payload : JSValue) (part : JSValue) : bool :=
  match shape_ref part with
  | Some i => bool_decide (0 ≤ i < Z.of_nat (length (instance_table payload)))%Z
  | None => false
  end.

(** The Visibility State of a Part: exactly two booleans under [state]. *)
Definition visibility_state (part : JSValue) : option (bool * bool) :=
  match get_prop (js "state") part with
  | Some (JArray [JBool shown; JBool expanded]) => Some (shown, expanded)
  | _ => None
  end.

(** The encoded buffers of an Instance, in the order of its properties. *)
Record EncodedBuffer : Type := mkEncodedBuffer {
  buffer : jsstring;
  codec : jsstring;
  dtype : jsstring
}.

Definition encoded_buffer (v : JSValue) : option EncodedBuffer :=
  match get_prop (js "buffer") v, get_prop (js "codec") v, get_prop (js "dtype") v with
  | Some (JString b), Some (JString c), Some (JString d) => Some (mkEncodedBuffer b c d)
  | _, _, _ => None
  end.

Definition buffers_of (instance : JSValue) : list EncodedBuffer :=
  match instance with
  | JObject props => omap (λ kv, encoded_buffer (snd kv)) props
  | _ => []
  end.

(** ** The Geometry Codec *)

Module Base64.
Local Open Scope N_scope.

Definition PAD : N := 61.

Definition sextet (c : N) : option N :=
  if (65 <=? c) && (c <=? 90) then Some (c - 65)
  else if (97 <=? c) && (c <=? 122) then Some (c - 71)
  else if (48 <=? c) && (c <=? 57) then Some (c + 4)
  else if c =? 43 then Some 62
  else if c =? 47 then Some 63
  else None.

(** The bytes of one group of four characters, padding allowed in the last. *)
Definition quantum (a b c d : N) (last : bool) : option (list N) :=
  match sextet a, sextet b with
  | Some x, Some y =>
      let b0 := x * 4 + y / 16 in
      if last && (c =? PAD) && (d =? PAD) then Some [b0]
      else
        match sextet c with
        | Some z =>
            let b1 := (y mod 16) * 16 + z / 4 in
            if last && (d =? PAD) then Some [b0; b1]
            else
              match sextet d with
              | Some u => Some [b0; b1; (z mod 4) * 64 + u]
              | None => None
              end
        | None => None
        end
  | _, _ => None
  end.

Fixpoint decode (s : jsstring) : option (list N) :=
  match s with
  | [] => Some []
  | a :: b :: c :: d :: rest =>
      q ← quantum a b c d (bool_decide (rest = []));
      r ← decode rest;
      Some (q ++ r)
  | _ => None
  end.
End Base64.

Inductive CodecError : Type := MalformedBuffer.

(** The element size, in bytes, of a declared element type. *)
Definition element_size (dtype : jsstring) : option nat :=
  if bool_decide (dtype = js "float32") then Some 4%nat
  else if bool_decide (dtype = js "int32") then Some 4%nat
  else None.

(** Consecutive groups of [n] bytes; a shorter tail is not a group. *)
Fixpoint elements (fuel n : nat) (bytes : list N) : list (list N) :=
  match fuel with
  | O => []
  | S fuel' =>
      if bool_decide (0 < n ∧ n ≤ length bytes)%nat
      then take n bytes :: elements fuel' n (drop n bytes)
      else []
  end.

(** Modelled from the spec: the Geometry Codec's [decode] of one typed
    numeric buffer is not among the sources (the page's [decode] is quoted
    in the reports only).  Section 4.1: decoding validates that the payload
    length is an exact multiple of the element size for the declared type and
    fails with [MalformedBuffer] otherwise. *)
Definition decode_payload (size : nat) (payload : list N) : CodecError + list (list N) :=
  if bool_decide (length payload `mod` size = 0)%nat
  then inr (elements (length payload) size payload)
  else inl MalformedBuffer.

(** The byte payload of an encoded buffer ([codec: "b64"]). *)
Definition payload_of (b : EncodedBuffer) : option (list N) :=
  if bool_decide (codec b = js "b64") then Base64.decode (buffer b) else None.

(** Modelled from the spec: the codec's [decode] applied to one encoded
    buffer of a payload (the page's own [decode] is not among the sources):
    the bytes of the buffer, then the length check of section 4.1 for the
    element size of the declared type. *)
Definition decode (b : EncodedBuffer) : option (CodecError + list (list N)) :=
  size ← element_size (dtype b);
  payload ← payload_of b;
  Some (decode_payload size payload).

(** ** Vocabulary of the statements *)

(** [send] in its [else] branch: the message joins the queue, and a line is logged. *)
Definition queued (m : jsstring) (w : World) : World :=
  with_console (λ l, l ++ [(LOG, [JString (js "Message queued (not connected):"); JString m])])
    (with_this (λ c, set_messageQueue (messageQueue c ++ [m]) c) w).

(** Socket [r] hands [frames] to the network, in that order. *)
Definition transmit (r : ref) (frames : list jsstring) (w : World) : World :=
  with_sockets (λ l, match l !! r with
                     | Some s => <[r := mkWebSocket (url s) (readyState s) (wire s ++ frames)]> l
                     | None => l
                     end) w.

(** [send] in its [then] branch: the message goes out on [this.ws]. *)
Definition transmitted (m : jsstring) (w : World) : World :=
  match ws (this w) with
  | Some r => transmit r [m] w
  | None => w
  end.

(** The page after the first three statements of the [open] handler. *)
Definition greeted (w : World) : World :=
  with_this (set_reconnectAttempts 0)
    (with_this (set_isConnected true)
       (with_console (λ l, l ++ [(LOG, [JString (js "WebSocket connected")])]) w)).

(** The connection is open: [this.ws] is a socket in state OPEN. *)
Definition connection_open (w : World) : Prop :=
  ∃ r s, ws (this w) = Some r ∧ sockets w !! r = Some s ∧ readyState s = OPEN.

(** The viewer receives nothing from a message event. *)
Definition dropped (data : MessageData) (w : World) : Prop :=
  posted (run (ws_onmessage data) w) = posted w.

(** The payload [sendStatus] computes for its second argument. *)
Definition status_payload (s : JSValue) : jsstring :=
  JSON_stringify (JObject [(js "command", JString (js "status")); (js "text", s)]).

Definition logo_buffers : list EncodedBuffer := flat_map buffers_of (instance_table logo).

(** Every value stored under a property [ref], anywhere in a payload. *)
Definition all_refs (payload : JSValue) : list JSValue :=
  omap (get_prop (js "ref")) (subvalues payload).

(** What [attemptReconnect] does to the counter and the pending timers:
    [a] attempts and timers [t] before, [a'] and [t'] after. *)
Definition scheduled (a : Z) (t : list Z) (a' : Z) (t' : list Z) : Prop :=
  if bool_decide (a < 5)%Z
  then a' = (a + 1)%Z ∧ t' = t ++ [(a' * 1000)%Z]
  else a' = a ∧ t' = t.

(** Sample pages: a page whose first connection has opened; a page that was
    given two messages before its connection opened; a page whose
    connection attempts keep failing. *)
Definition page1 : World :=
  fire (SocketOpened 0) (constructor (js "localhost") (js "3939") true).

Definition page_offline : World :=
  fire (CallSend (js "S:{}"))
    (fire (CallSendStatus JNull) (constructor (js "localhost") (js "3939") true)).

Fixpoint fail_again (n : nat) (w : World) : World :=
  match n with
  | O => w
  | S n' => fail_again n' (fire (TimerFired 0 false) w)
  end.

(** ** The invariant of the page

    On the socket reference, the store, the timers and the three counters:
    [this.ws] points into the store; a socket that is connecting or open is
    the one [this.ws] points to; at most one socket is not closed; while a
    reconnect is scheduled every socket is closed; at most one reconnect is
    scheduled, after [d * a] milliseconds; nothing was sent on a socket that
    is still connecting; and the counters stay within their bounds. *)
Record inv_core (r : option ref) (l : list WebSocket) (t : list Z) (a m d : Z) : Prop :=
  mk_inv_core {
  inv_ws_valid : ∀ i, r = Some i → (i < length l)%nat;
  inv_live : ∀ i s, l !! i = Some s →
                    readyState s = CONNECTING ∨ readyState s = OPEN → r = Some i;
  inv_single : ∀ i j si sj, l !! i = Some si → l !! j = Some sj →
                            readyState si ≠ CLOSED → readyState sj ≠ CLOSED → i = j;
  inv_timer_idle : t ≠ [] → ∀ i s, l !! i = Some s → readyState s = CLOSED;
  inv_timer : t = [] ∨ (t = [(d * a)%Z] ∧ (1 ≤ a)%Z);
  inv_fresh : ∀ i s, l !! i = Some s → readyState s = CONNECTING → wire s = [];
  inv_attempts : (0 ≤ a ≤ m)%Z;
  inv_max : m = 5%Z;
  inv_delay : d = 1000%Z
}.

Definition Inv (w : World) : Prop :=
  inv_core (ws (this w)) (sockets w) (timers w) (reconnectAttempts (this w))
           (maxReconnectAttempts (this w)) (reconnectDelay (this w)).

(** Nothing is connected or connecting, and no reconnect is scheduled. *)
Record idle (w : World) : Prop := mk_idle {
  idle_ws_valid : ∀ i, ws (this w) = Some i → (i < length (sockets w))%nat;
  idle_closed : ∀ i s, sockets w !! i = Some s → readyState s = CLOSED;
  idle_timers : timers w = [];
  idle_attempts : (0 ≤ reconnectAttempts (this w) ≤ maxReconnectAttempts (this w))%Z;
  idle_max : maxReconnectAttempts (this w) = 5%Z;
  idle_delay : reconnectDelay (this w) = 1000%Z
}.

Global Arguments js : simpl never.
Global Arguments Stringify.Z_to_js : simpl never.

(** Unfolds the monad, so that a handler reads as a function of the page. *)
Ltac js_unfold :=
  unfold mbind, mret, JS_bind, JS_ret, js_bind, js_ret, gets, modify, throw,
    try_catch, call1 in *.

(** ** Vocabulary of the further properties *)

(** The URL of [connect], line 20. *)
Definition ws_url (c : Comms) : jsstring :=
  js "ws://" ++ host c ++ js ":" ++ port c ++ js "/".

(** The page calls [send] with each message of a list, in order. *)
Definition send_all (ms : list jsstring) (w : World) : World :=
  foldl (λ w m, fire (CallSend m) w) w ms.

(** What the browser does to the page before a handler runs, and the
    handler or method an event runs. *)
Definition arrival (ev : Event) (w : World) : World :=
  match ev with
  | SocketOpened i => set_state i OPEN w
  | SocketClosing i => set_state i CLOSING w
  | SocketClosed i _ => set_state i CLOSED w
  | TimerFired k _ => with_timers (delete k) w
  | SocketMessage _ _ | CallSend _ | CallSendStatus _ | CallClose => w
  end.

Definition handler (ev : Event) : JS unit :=
  match ev with
  | SocketOpened _ => ws_onopen
  | SocketMessage _ data => ws_onmessage data
  | SocketClosed _ failed => (if failed then ws_onerror else mret ());; ws_onclose
  | TimerFired _ accepted => connect accepted
  | CallSend m => send m
  | CallSendStatus s => sendStatus s
  | CallClose => close
  | SocketClosing _ => mret ()
  end.

(** Every socket is closed and no reconnect is scheduled. *)
Definition gave_up (w : World) : Prop :=
  timers w = [] ∧ ∀ i s, sockets w !! i = Some s → readyState s = CLOSED.

(** Whenever the guard of [send] holds the queue is empty. *)
Definition settled (w : World) : Prop :=
  can_transmit w = true → messageQueue (this w) = [].

(** * Proofs *)

(** ** The platform model at work *)

Example JSON_parse_object :
  JSON_parse (js "{ " ++ quoted "a" ++ js " : [1, -2.50e1, true, null], "
              ++ quoted "b" ++ js ": " ++ quoted "x\nA" ++ js " }")
  = Some (JObject [(js "a", JArray [JNumber 1 0; JNumber (-250) (-1); JBool true; JNull]);
                   (js "b", JString [120; 10; 65]%N)]).
Proof. vm_compute. reflexivity. Qed.

Example JSON_parse_rejects :
  JSON_parse <$> [js "hello"; js "{} x"; js "[1,]"; js "01"; js "{a:1}"; []]
  = [None; None; None; None; None; None].
Proof. vm_compute. reflexivity. Qed.

Example JSON_stringify_status :
  JSON_stringify (JObject [(js "command", JString (js "status"));
                           (js "text", JArray [JNumber 11 (-1); JNumber 240 0; JBool false])])
  = js "{" ++ quoted "command" ++ js ":" ++ quoted "status" ++ js ","
      ++ quoted "text" ++ js ":[1.1,240,false]}".
Proof. vm_compute. reflexivity. Qed.

Example JSON_roundtrip_status :
  JSON_parse (status_payload (JString [34; 10; 955]%N))
  = Some (JObject [(js "command", JString (js "status"));
                   (js "text", JString [34; 10; 955]%N)]).
Proof. vm_compute. reflexivity. Qed.

Example Base64_decode_samples :
  Base64.decode <$> [js "AQAAAAAA"; js "TWFu"; js "TWE="; js "TQ=="; js "TQ="]
  = [Some [1; 0; 0; 0; 0; 0]; Some [77; 97; 110]; Some [77; 97]; Some [77]; None]%N.
Proof. vm_compute. reflexivity. Qed.

(** ** The methods and handlers as functions of the page *)

Lemma can_transmit_true w :
  can_transmit w = true ↔
  isConnected (this w) = true ∧
  ∃ r s, ws (this w) = Some r ∧ sockets w !! r = Some s ∧ readyState s = OPEN.
Proof.
  unfold can_transmit. split.
  - intros [Hc H]%andb_true_iff. split; [done|].
    destruct (ws (this w)) as [r|]; [|done].
    apply bool_decide_eq_true in H.
    destruct (sockets w !! r) as [s|] eqn:Hs; simplify_eq/=. eauto.
  - intros [-> (r & s & -> & Hs & Ho)]. simpl. rewrite Hs. simpl. rewrite Ho.
    by apply bool_decide_eq_true.
Qed.

Lemma this_ws_send_open m w r s :
  ws (this w) = Some r → sockets w !! r = Some s → readyState s = OPEN →
  this_ws_send m w = (Normal (), transmit r [m] w).
Proof.
  intros Hr Hs Ho. unfold this_ws_send, transmit, WebSocket_send, with_sockets.
  js_unfold. cbn. rewrite Hr, Hs, Ho. done.
Qed.

Lemma send_eq m w :
  send m w = if can_transmit w then this_ws_send m w else (Normal (), queued m w).
Proof.
  unfold send, queued, console_log. js_unfold. destruct (can_transmit w); done.
Qed.

Lemma transmit_app r a b w :
  transmit r b (transmit r a w) = transmit r (a ++ b) w.
Proof.
  unfold transmit, with_sockets. cbn. f_equal.
  destruct (sockets w !! r) as [s|] eqn:Hs; [|by rewrite Hs].
  rewrite list_lookup_insert_eq by (by eapply lookup_lt_Some).
  cbn. rewrite list_insert_insert_eq. by rewrite <-(assoc_L (++)).
Qed.

Lemma transmit_nil r w : transmit r [] w = w.
Proof.
  unfold transmit, with_sockets. destruct w as [c l t p k]; cbn. f_equal.
  destruct (l !! r) as [s|] eqn:Hs; [|done].
  rewrite app_nil_r. destruct s; cbn. by apply list_insert_id.
Qed.

Lemma transmit_lookup r frames w s :
  sockets w !! r = Some s →
  sockets (transmit r frames w) !! r
  = Some (mkWebSocket (url s) (readyState s) (wire s ++ frames)).
Proof.
  intros Hs. unfold transmit, with_sockets; cbn. rewrite Hs.
  apply list_lookup_insert_eq. by eapply lookup_lt_Some.
Qed.

Lemma drain_open n : ∀ w r s,
  ws (this w) = Some r → sockets w !! r = Some s → readyState s = OPEN →
  (length (messageQueue (this w)) ≤ n)%nat →
  drain n w
  = (Normal (), with_this (set_messageQueue []) (transmit r (messageQueue (this w)) w)).
Proof.
  induction n as [|n IH]; intros w r s Hr Hs Ho Hn.
  - destruct (messageQueue (this w)) as [|m q] eqn:Hq; [|cbn in Hn; lia].
    cbn. rewrite transmit_nil. destruct w as [[] ? ? ? ?]; cbn in *. by subst.
  - cbn [drain]. js_unfold. cbn.
    destruct (messageQueue (this w)) as [|m q] eqn:Hq.
    + rewrite transmit_nil. destruct w as [[] ? ? ? ?]; cbn in *. by subst.
    + set (w1 := with_this (set_messageQueue q) w).
      change (match this_ws_send m w1 with
              | (Normal a, w') => drain n w'
              | (Throw e, w') => (Throw e, w')
              end = (Normal (), with_this (set_messageQueue []) (transmit r (m :: q) w))).
      rewrite (this_ws_send_open m w1 r s) by done.
      rewrite (IH _ r (mkWebSocket (url s) (readyState s) (wire s ++ [m]))); cbn; try done.
      * rewrite transmit_app. done.
      * by apply transmit_lookup.
      * cbn in Hn. lia.
Qed.

Lemma ws_onopen_open w r s :
  ws (this w) = Some r → sockets w !! r = Some s → readyState s = OPEN →
  ws_onopen w
  = (Normal (),
     with_this (set_messageQueue [])
       (transmit r (js "L:" :: messageQueue (this w)) (greeted w))).
Proof.
  intros Hr Hs Ho. unfold ws_onopen, console_log. js_unfold.
  change (match send (js "L:") (greeted w) with
          | (Normal a, w') => drain (length (messageQueue (this w'))) w'
          | (Throw e, w') => (Throw e, w')
          end = (Normal (), with_this (set_messageQueue [])
                              (transmit r (js "L:" :: messageQueue (this w)) (greeted w)))).
  rewrite send_eq.
  assert (can_transmit (greeted w) = true) as ->.
  { apply can_transmit_true. split; [done|]. exists r, s. done. }
  rewrite (this_ws_send_open _ _ r s) by done.
  rewrite (drain_open _ _ r (mkWebSocket (url s) (readyState s) (wire s ++ [js "L:"]))); try done.
  - rewrite transmit_app. done.
  - by apply transmit_lookup.
Qed.

Lemma attemptReconnect_eq w :
  attemptReconnect w
  = (Normal (),
     if bool_decide (reconnectAttempts (this w) < maxReconnectAttempts (this w))%Z then
       with_timers (λ l, l ++ [reconnectDelay (this w) * (reconnectAttempts (this w) + 1)]%Z)
         (with_console
            (λ l, l ++ [(LOG, [JString (js "Attempting to reconnect ("
                                        ++ Stringify.Z_to_js (reconnectAttempts (this w) + 1)
                                        ++ js "/"
                                        ++ Stringify.Z_to_js (maxReconnectAttempts (this w))
                                        ++ js ")...")])])
            (with_this (set_reconnectAttempts (reconnectAttempts (this w) + 1)) w))
     else
       with_console (λ l, l ++ [(ERROR, [JString (js "Max reconnection attempts reached")])]) w).
Proof.
  unfold attemptReconnect, console_log, console_error, setTimeout. js_unfold.
  cbn. case_bool_decide; done.
Qed.

Section core.
Context {r : option ref} {l : list WebSocket} {t : list Z} {a m d : Z}.
Hypothesis H : inv_core r l t a m d.

Lemma inv_core_unclosed_no_timer i s :
  l !! i = Some s → readyState s ≠ CLOSED → t = [].
Proof.
  intros Hs Hn. destruct t as [|x t'] eqn:Ht; [done|].
  exfalso. apply Hn. by eapply (inv_timer_idle _ _ _ _ _ _ H).
Qed.

Lemma inv_core_transmit i s frames :
  l !! i = Some s → readyState s = OPEN →
  inv_core r (<[i := mkWebSocket (url s) (readyState s) (wire s ++ frames)]> l) t a m d.
Proof.
  intros Hs Ho. destruct H as [H1 H2 H3 H4 H5 H6 H7 H8 H9].
  split; try done.
  - intros j Hj. rewrite length_insert. auto.
  - intros j sj [(-> & <- & ?) | (? & ?)]%list_lookup_insert_Some Hst; cbn in *; eauto.
  - intros j k sj sk [(-> & <- & ?) | (? & ?)]%list_lookup_insert_Some
      [(-> & <- & ?) | (? & ?)]%list_lookup_insert_Some; cbn; eauto.
  - intros Ht j sj [(-> & <- & ?) | (? & ?)]%list_lookup_insert_Some; cbn; eauto.
  - intros j sj [(-> & <- & ?) | (? & ?)]%list_lookup_insert_Some; cbn; eauto.
    congruence.
Qed.

Lemma inv_core_opened i s :
  l !! i = Some s → readyState s = CONNECTING →
  inv_core r (<[i := mkWebSocket (url s) OPEN (wire s)]> l) t 0 m d.
Proof.
  intros Hs Hc.
  assert (t = []) as Ht by (eapply inv_core_unclosed_no_timer; [done|congruence]).
  destruct H as [H1 H2 H3 H4 H5 H6 H7 H8 H9].
  split; try done.
  - intros j Hj. rewrite length_insert. auto.
  - intros j sj [(-> & <- & ?) | (? & ?)]%list_lookup_insert_Some Hst; cbn in *; eauto.
  - intros j k sj sk [(-> & <- & ?) | (? & ?)]%list_lookup_insert_Some
      [(-> & <- & ?) | (? & ?)]%list_lookup_insert_Some; cbn; eauto.
    + intros _ Hk. apply (H3 j k s sk); try done. congruence.
    + intros Hj _. apply (H3 j k sj s); try done. congruence.
  - by left.
  - intros j sj [(-> & <- & ?) | (? & ?)]%list_lookup_insert_Some; cbn; eauto; done.
  - lia.
Qed.

(** [close()] on the socket [this.ws] points to. *)
Lemma inv_core_closing i s :
  l !! i = Some s → readyState s = CONNECTING ∨ readyState s = OPEN →
  inv_core None (<[i := mkWebSocket (url s) CLOSING (wire s)]> l) t a m d.
Proof.
  intros Hs Hc. destruct H as [H1 H2 H3 H4 H5 H6 H7 H8 H9].
  split; try done.
  - intros j sj [(-> & <- & ?) | (? & Hj)]%list_lookup_insert_Some Hst; cbn in *.
    + destruct Hst; done.
    + exfalso. assert (j = i); [|done].
      apply (H3 j i sj s); try done; destruct Hst, Hc; congruence.
  - intros j k sj sk [(-> & <- & ?) | (? & ?)]%list_lookup_insert_Some
      [(-> & <- & ?) | (? & ?)]%list_lookup_insert_Some; cbn; eauto.
    + intros _ Hk. apply (H3 j k s sk); try done. destruct Hc; congruence.
    + intros Hj _. apply (H3 j k sj s); try done. destruct Hc; congruence.
  - intros Ht j sj Hj. exfalso.
    assert (readyState s = CLOSED) by eauto. destruct Hc; congruence.
  - intros j sj [(-> & <- & ?) | (? & ?)]%list_lookup_insert_Some; cbn; eauto; done.
Qed.

(** The server starts the closing handshake on the open socket [i]. *)
Lemma inv_core_handshake i s :
  l !! i = Some s → readyState s = OPEN →
  inv_core r (<[i := mkWebSocket (url s) CLOSING (wire s)]> l) t a m d.
Proof.
  intros Hs Ho. destruct H as [H1 H2 H3 H4 H5 H6 H7 H8 H9].
  split; try done.
  - intros j Hj. rewrite length_insert. auto.
  - intros j sj [(-> & <- & ?) | (? & Hj)]%list_lookup_insert_Some Hst; cbn in *.
    + destruct Hst; done.
    + eauto.
  - intros j k sj sk [(-> & <- & ?) | (? & ?)]%list_lookup_insert_Some
      [(-> & <- & ?) | (? & ?)]%list_lookup_insert_Some; cbn; eauto.
    + intros _ Hk. apply (H3 j k s sk); try done. congruence.
    + intros Hj _. apply (H3 j k sj s); try done. congruence.
  - intros Ht j sj Hj. exfalso.
    assert (readyState s = CLOSED) by eauto. congruence.
  - intros j sj [(-> & <- & ?) | (? & ?)]%list_lookup_insert_Some; cbn; eauto; done.
Qed.

Lemma inv_core_forget : (∀ i s, l !! i = Some s → readyState s = CLOSING ∨ readyState s = CLOSED) →
  inv_core None l t a m d.
Proof.
  intros Hall. destruct H as [H1 H2 H3 H4 H5 H6 H7 H8 H9].
  split; try done.
  intros j sj Hj Hst. apply Hall in Hj. destruct Hst, Hj; congruence.
Qed.
End core.

Lemma inv_core_all_closed r l t a m d :
  (∀ i, r = Some i → (i < length l)%nat) →
  (∀ i s, l !! i = Some s → readyState s = CLOSED) →
  t = [] ∨ (t = [(d * a)%Z] ∧ (1 ≤ a)%Z) →
  (0 ≤ a ≤ m)%Z → m = 5%Z → d = 1000%Z →
  inv_core r l t a m d.
Proof.
  intros Hv Hall Ht Ha Hm Hd. split; try done.
  - intros i s Hs Hst. apply Hall in Hs. destruct Hst; congruence.
  - intros i j si sj Hi _ Hn. by apply Hall in Hi.
  - intros i s Hs Hst. apply Hall in Hs. congruence.
Qed.

Lemma inv_core_connected u l a m d :
  (∀ i s, l !! i = Some s → readyState s = CLOSED) →
  (0 ≤ a ≤ m)%Z → m = 5%Z → d = 1000%Z →
  inv_core (Some (length l)) (l ++ [mkWebSocket u CONNECTING []]) [] a m d.
Proof.
  intros Hall Ha Hm Hd. split; try done.
  - intros i [= <-]. rewrite length_app. cbn. lia.
  - intros i s [Hs | [-> <-]]%lookup_snoc_Some Hst; [|done].
    destruct Hs as [_ Hs]. apply Hall in Hs. destruct Hst; congruence.
  - intros i j si sj [[_ Hi] | [-> <-]]%lookup_snoc_Some
      [[_ Hj] | [-> <-]]%lookup_snoc_Some; try done; intros Hni Hnj.
    + by apply Hall in Hi.
    + by apply Hall in Hi.
    + by apply Hall in Hj.
  - by left.
  - intros i s [[_ Hs] | [-> <-]]%lookup_snoc_Some Hst; [|done].
    apply Hall in Hs. congruence.
Qed.

Lemma sockets_transmit r frames w s :
  sockets w !! r = Some s →
  sockets (transmit r frames w)
  = <[r := mkWebSocket (url s) (readyState s) (wire s ++ frames)]> (sockets w).
Proof. intros Hs. unfold transmit, with_sockets; cbn. by rewrite Hs. Qed.

Lemma ws_onmessage_eq data w :
  ws_onmessage data w
  = (Normal (),
     match data with
     | TextData s => with_posted (λ l, l ++ [parseMessage s]) w
     | BinaryData _ => w
     end).
Proof. unfold ws_onmessage, window_postMessage. js_unfold. by destruct data. Qed.

Lemma set_state_eq i rs w s :
  sockets w !! i = Some s →
  set_state i rs w = with_sockets <[i := mkWebSocket (url s) rs (wire s)]> w.
Proof. intros Hs. unfold set_state, with_sockets. by rewrite Hs. Qed.

Lemma state_of_Some w i rs :
  state_of w i = Some rs ↔ ∃ s, sockets w !! i = Some s ∧ readyState s = rs.
Proof.
  unfold state_of. destruct (sockets w !! i) as [s|]; cbn; split.
  - intros [= <-]. eauto.
  - by intros (s' & [= <-] & <-).
  - done.
  - by intros (? & ? & ?).
Qed.

Lemma Inv_attemptReconnect w : idle w → Inv (run attemptReconnect w).
Proof.
  intros [H1 H2 H3 H4 H5 H6]. unfold run. rewrite attemptReconnect_eq. cbn [snd].
  unfold Inv. case_bool_decide; cbn; rewrite H3.
  - apply inv_core_all_closed; try done; try lia. right. split; [done|lia].
  - apply inv_core_all_closed; try done. by left.
Qed.

Lemma Inv_connect accepted w : idle w → Inv (run (connect accepted) w).
Proof.
  intros Hi. unfold run, connect, WebSocket_new, console_error.
  destruct accepted; js_unfold; cbn.
  - destruct Hi as [H1 H2 H3 H4 H5 H6]. unfold Inv; cbn. rewrite H3.
    by apply inv_core_connected.
  - apply Inv_attemptReconnect. by destruct Hi.
Qed.

Lemma Inv_constructor host port accepted : Inv (constructor host port accepted).
Proof.
  apply Inv_connect. split; cbn; done.
Qed.

Lemma Inv_send m w : Inv w → Inv (run (send m) w).
Proof.
  intros HI. unfold run. rewrite send_eq.
  destruct (can_transmit w) eqn:Hc.
  - apply can_transmit_true in Hc as (_ & r & s & Hr & Hs & Ho).
    rewrite (this_ws_send_open m w r s) by done. cbn [snd].
    unfold Inv. rewrite (sockets_transmit r [m] w s) by done.
    by apply inv_core_transmit.
  - exact HI.
Qed.

Lemma close_eq w :
  close w
  = match ws (this w) with
    | Some r =>
        match sockets w !! r with
        | Some s =>
            (Normal (),
             with_this (set_ws None)
               (match readyState s with
                | CONNECTING | OPEN => set_state r CLOSING
                | CLOSING | CLOSED => id
                end (with_this (set_isConnected false) w)))
        | None => (Throw TypeError, with_this (set_isConnected false) w)
        end
    | None => (Normal (), with_this (set_isConnected false) w)
    end.
Proof.
  destruct w as [[h p0 [r|] a m d q ic] l t p k];
    unfold close, WebSocket_close, set_state, with_sockets, with_this; js_unfold;
    cbn; [|done].
  destruct (l !! r) as [s|] eqn:Hs; cbn; [|done].
  destruct (readyState s); cbn; rewrite ?Hs; done.
Qed.

Lemma Inv_opened w i :
  Inv w → enabled (SocketOpened i) w = true → Inv (fire (SocketOpened i) w).
Proof.
  intros HI [s [Hs Hc]]%bool_decide_eq_true%state_of_Some.
  assert (ws (this w) = Some i) as Hr by (eapply (inv_live _ _ _ _ _ _ HI); eauto).
  cbn [fire]. rewrite (set_state_eq i OPEN w s) by done.
  unfold run.
  rewrite (ws_onopen_open _ i (mkWebSocket (url s) OPEN (wire s))); cbn [snd]; try done.
  2:{ cbn. apply list_lookup_insert_eq. by eapply lookup_lt_Some. }
  unfold Inv, transmit. cbn.
  rewrite list_lookup_insert_eq by (by eapply lookup_lt_Some). cbn.
  apply (inv_core_transmit (inv_core_opened HI i s Hs Hc) i
           (mkWebSocket (url s) OPEN (wire s))); [|done].
  apply list_lookup_insert_eq. by eapply lookup_lt_Some.
Qed.

Lemma Inv_message w i data : Inv w → Inv (fire (SocketMessage i data) w).
Proof.
  intros HI. cbn [fire]. unfold run. rewrite ws_onmessage_eq. by destruct data.
Qed.

Lemma idle_after_close w i s :
  Inv w → sockets w !! i = Some s → readyState s ≠ CLOSED →
  ∀ w', ws (this w') = ws (this w) →
        sockets w' = <[i := mkWebSocket (url s) CLOSED (wire s)]> (sockets w) →
        timers w' = timers w →
        reconnectAttempts (this w') = reconnectAttempts (this w) →
        maxReconnectAttempts (this w') = maxReconnectAttempts (this w) →
        reconnectDelay (this w') = reconnectDelay (this w) →
        idle w'.
Proof.
  intros HI Hs Hn w' E1 E2 E3 E4 E5 E6.
  pose proof (inv_core_unclosed_no_timer HI i s Hs Hn) as Ht.
  destruct HI as [H1 H2 H3 H4 H5 H6 H7 H8 H9].
  split; rewrite ?E1, ?E2, ?E3, ?E4, ?E5, ?E6; try done.
  - intros j Hj. rewrite length_insert. auto.
  - intros j sj [(-> & <- & ?) | (? & ?)]%list_lookup_insert_Some; [done|].
    destruct (decide (readyState sj = CLOSED)); [done|].
    exfalso. by eauto.
Qed.

Lemma Inv_closed w i failed :
  Inv w → enabled (SocketClosed i failed) w = true → Inv (fire (SocketClosed i failed) w).
Proof.
  intros HI [Hi Hn]%andb_true_iff.
  apply bool_decide_eq_true in Hi as [rs Hi].
  rewrite negb_true_iff, bool_decide_eq_false in Hn.
  apply state_of_Some in Hi as (s & Hs & <-).
  assert (readyState s ≠ CLOSED) as Hc.
  { intros Hc. apply Hn. apply state_of_Some. eauto. }
  cbn [fire]. rewrite (set_state_eq i CLOSED w s) by done.
  unfold run at 1, ws_onclose, console_log. js_unfold. cbn [snd].
  apply Inv_attemptReconnect.
  eapply (idle_after_close w i s); try done; by destruct failed.
Qed.

Lemma Inv_timer w k accepted :
  Inv w → enabled (TimerFired k accepted) w = true → Inv (fire (TimerFired k accepted) w).
Proof.
  intros HI Hk%bool_decide_eq_true. cbn [fire].
  apply Inv_connect.
  destruct HI as [H1 H2 H3 H4 H5 H6 H7 H8 H9].
  assert (timers w ≠ []) as Ht by (intros E; rewrite E in Hk; cbn in Hk; lia).
  split; cbn; try done.
  - eauto.
  - destruct H5 as [E | [E _]]; [done|]. rewrite E in *. cbn in Hk.
    by replace k with 0%nat by lia.
Qed.

Lemma Inv_close w : Inv w → Inv (fire CallClose w).
Proof.
  intros HI. cbn [fire]. unfold run.
  rewrite close_eq.
  destruct (ws (this w)) as [r|] eqn:Hr; [|done].
  destruct (sockets w !! r) as [s|] eqn:Hs.
  2:{ apply (inv_ws_valid _ _ _ _ _ _ HI) in Hr. apply lookup_ge_None in Hs. lia. }
  cbn [snd]. destruct (readyState s) eqn:Hst.
  1,2: rewrite (set_state_eq r CLOSING _ s) by done; unfold Inv; cbn;
       apply (inv_core_closing HI r s); eauto.
  all: unfold Inv; cbn; apply (inv_core_forget HI);
       intros j sj Hj;
       destruct (readyState sj) eqn:Hsj; eauto;
       (assert (Some r = Some j) as [= ->]
          by (rewrite <-Hr; eapply (inv_live _ _ _ _ _ _ HI); eauto));
       congruence.
Qed.

Lemma Inv_handshake w i :
  Inv w → enabled (SocketClosing i) w = true → Inv (fire (SocketClosing i) w).
Proof.
  intros HI [s [Hs Ho]]%bool_decide_eq_true%state_of_Some.
  cbn [fire]. rewrite (set_state_eq i CLOSING w s) by done.
  unfold Inv. cbn. by apply (inv_core_handshake HI).
Qed.

Theorem Inv_fire w ev : Inv w → enabled ev w = true → Inv (fire ev w).
Proof.
  intros HI He. destruct ev.
  - by apply Inv_opened.
  - by apply Inv_message.
  - by apply Inv_closed.
  - by apply Inv_timer.
  - by apply Inv_send.
  - by apply (Inv_send (js "U:")).
  - by apply Inv_close.
  - by apply Inv_handshake.
Qed.

Theorem Reachable_Inv w : Reachable w → Inv w.
Proof.
  induction 1 as [host port accepted | w ev _ IH He].
  - apply Inv_constructor.
  - by apply Inv_fire.
Qed.

(** Opening socket [i] on a reachable page: the exact outcome. *)
Lemma fire_opened w i s :
  Inv w → sockets w !! i = Some s → readyState s = CONNECTING →
  fire (SocketOpened i) w
  = with_this (set_messageQueue [])
      (with_sockets <[i := mkWebSocket (url s) OPEN (js "L:" :: messageQueue (this w))]>
         (greeted w)).
Proof.
  intros HI Hs Hc.
  assert (ws (this w) = Some i) as Hr by (eapply (inv_live _ _ _ _ _ _ HI); eauto).
  assert (wire s = []) as Hw by (eapply (inv_fresh _ _ _ _ _ _ HI); eauto).
  cbn [fire]. rewrite (set_state_eq i OPEN w s) by done.
  unfold run.
  rewrite (ws_onopen_open _ i (mkWebSocket (url s) OPEN (wire s))); cbn [snd]; try done.
  2:{ cbn. apply list_lookup_insert_eq. by eapply lookup_lt_Some. }
  unfold transmit, with_sockets, with_this. cbn.
  rewrite list_lookup_insert_eq by (by eapply lookup_lt_Some). cbn.
  rewrite list_insert_insert_eq, Hw. done.
Qed.

Lemma fire_closed w i failed :
  fire (SocketClosed i failed) w
  = run attemptReconnect
      (with_this (set_isConnected false)
         (with_console (λ l, l ++ [(LOG, [JString (js "WebSocket disconnected")])])
            (if failed then run ws_onerror (set_state i CLOSED w)
             else set_state i CLOSED w))).
Proof. cbn [fire]. unfold run at 1, ws_onclose, console_log. by js_unfold. Qed.

Lemma connect_eq accepted w :
  connect accepted w
  = if accepted then
      (Normal (),
       with_this (set_ws (Some (length (sockets w))))
         (with_sockets
            (λ l, l ++ [mkWebSocket (js "ws://" ++ host (this w) ++ js ":"
                                      ++ port (this w) ++ js "/") CONNECTING []]) w))
    else
      attemptReconnect
        (with_console
           (λ l, l ++ [(ERROR, [JString (js "Failed to create WebSocket:");
                                exn_name SyntaxError])]) w).
Proof.
  unfold connect, WebSocket_new, console_error. destruct accepted; by js_unfold.
Qed.

Lemma JSON_parse_empty : JSON_parse [] = None.
Proof. reflexivity. Qed.

Lemma status_payload_nonempty s : status_payload s ≠ [].
Proof.
  unfold status_payload. cbn [JSON_stringify].
  intros [E _]%app_eq_nil. by vm_compute in E.
Qed.

Lemma not_open_cannot_transmit w : ¬ connection_open w → can_transmit w = false.
Proof.
  intros Hn. destruct (can_transmit w) eqn:Hc; [|done].
  apply can_transmit_true in Hc as [_ Ho]. done.
Qed.

Lemma queue_grows w ev :
  (∀ i, ev ≠ SocketOpened i) →
  ∃ more, messageQueue (this (fire ev w)) = messageQueue (this w) ++ more.
Proof.
  intros Hev. destruct ev as [i|i data|i failed|k accepted|m|s| |i].
  - by destruct (Hev i).
  - exists []. rewrite app_nil_r. cbn [fire]. unfold run. rewrite ws_onmessage_eq.
    by destruct data.
  - exists []. rewrite app_nil_r. rewrite fire_closed. unfold run.
    rewrite attemptReconnect_eq. cbn [snd].
    unfold set_state, ws_onerror, console_error. js_unfold.
    case_bool_decide; destruct failed; reflexivity.
  - exists []. rewrite app_nil_r. cbn [fire]. unfold run. rewrite connect_eq.
    destruct accepted; [done|]. rewrite attemptReconnect_eq. cbn [snd].
    case_bool_decide; done.
  - cbn [fire]. unfold run. rewrite send_eq. destruct (can_transmit w) eqn:Hc.
    + apply can_transmit_true in Hc as (_ & r & s & Hr & Hs & Ho).
      rewrite (this_ws_send_open _ _ r s) by done. exists []. by rewrite app_nil_r.
    + by exists [m].
  - cbn [fire]. unfold run, sendStatus, call1. rewrite send_eq.
    destruct (can_transmit w) eqn:Hc.
    + apply can_transmit_true in Hc as (_ & r & s' & Hr & Hs & Ho).
      rewrite (this_ws_send_open _ _ r s') by done. exists []. by rewrite app_nil_r.
    + by exists [js "U:"].
  - exists []. rewrite app_nil_r. cbn [fire]. unfold run. rewrite close_eq.
    destruct (ws (this w)) as [r|]; [|done].
    destruct (sockets w !! r) as [s|]; [|done]. by destruct (readyState s).
  - exists []. by rewrite app_nil_r.
Qed.

Lemma getMessageType_unknown k : table_get k types = None → getMessageType k = js "unknown".
Proof. unfold getMessageType. by intros ->. Qed.

Lemma parseMessage_long d :
  (2 ≤ length d)%nat →
  parseMessage d
  = JObject [(js "type", JString (getMessageType (take 1 d)));
             match JSON_parse (drop 2 d) with
             | Some parsed => (js "data", parsed)
             | None => (js "text", JString (drop 2 d))
             end].
Proof.
  intros Hd. unfold parseMessage.
  destruct (Nat.ltb_spec (length d) 2) as [?|_]; [lia|].
  by destruct (JSON_parse (drop 2 d)).
Qed.

Lemma decode_payload_accepts size payload :
  (∃ elems, decode_payload size payload = inr elems) ↔ (length payload `mod` size = 0)%nat.
Proof.
  unfold decode_payload. case_bool_decide; split; try done.
  - eauto.
  - by intros [? ?].
Qed.

Lemma attemptReconnect_scheduled w :
  maxReconnectAttempts (this w) = 5%Z → reconnectDelay (this w) = 1000%Z →
  scheduled (reconnectAttempts (this w)) (timers w)
            (reconnectAttempts (this (run attemptReconnect w)))
            (timers (run attemptReconnect w))
  ∧ maxReconnectAttempts (this (run attemptReconnect w)) = 5%Z.
Proof.
  intros Hm Hd. unfold run, scheduled. rewrite attemptReconnect_eq, Hm, Hd. cbn [snd].
  case_bool_decide; cbn; (split; [split|]); try done. f_equal. f_equal. lia.
Qed.

Lemma fire_timer w k accepted :
  fire (TimerFired k accepted) w
  = if accepted then
      with_this (set_ws (Some (length (sockets w))))
        (with_sockets
           (λ l, l ++ [mkWebSocket (js "ws://" ++ host (this w) ++ js ":"
                                     ++ port (this w) ++ js "/") CONNECTING []])
           (with_timers (delete k) w))
    else
      run attemptReconnect
        (with_console
           (λ l, l ++ [(ERROR, [JString (js "Failed to create WebSocket:");
                                exn_name SyntaxError])])
           (with_timers (delete k) w)).
Proof. cbn [fire]. unfold run. rewrite connect_eq. by destruct accepted. Qed.

(** The loop of the [open] handler never stops for lack of fuel: it ends
    with an empty queue, or with the exception of a [send]. *)
Lemma this_ws_send_queue m w :
  messageQueue (this (snd (this_ws_send m w))) = messageQueue (this w).
Proof.
  unfold this_ws_send, WebSocket_send. js_unfold. cbn.
  destruct (ws (this w)) as [r|]; [|done]. cbn.
  destruct (sockets w !! r) as [s|]; [|done]. by destruct (readyState s).
Qed.

Lemma drain_stops n : ∀ w,
  (length (messageQueue (this w)) ≤ n)%nat →
  (∃ w', drain n w = (Normal (), w') ∧ messageQueue (this w') = [])
  ∨ (∃ e w', drain n w = (Throw e, w')).
Proof.
  induction n as [|n IH]; intros w Hn.
  - left. exists w. split; [done|].
    destruct (messageQueue (this w)); [done|cbn in Hn; lia].
  - cbn [drain]. js_unfold. cbn.
    destruct (messageQueue (this w)) as [|m q] eqn:Hq; [left; eauto|].
    set (w1 := with_this (set_messageQueue q) w).
    pose proof (this_ws_send_queue m w1) as Hsend.
    change (let (c, w') := this_ws_send m w1 in
            match c with Normal _ => drain n w' | Throw e => (Throw e, w') end)
      with (match this_ws_send m w1 with
            | (Normal _, w') => drain n w'
            | (Throw e, w') => (Throw e, w')
            end).
    destruct (this_ws_send m w1) as [[[]|e] w2]; [|right; eauto].
    apply IH. cbn in Hsend. rewrite Hsend. cbn in *. lia.
Qed.

(** * The claims *)

(** ** C1: what [sendStatus] puts on the channel *)

(** C1 (the code departs from the claim).  The claim: for every status
    object [s], [sendStatus(s)] transmits the discriminator 'U', a separator
    and a JSON payload encoding [{command: "status", text: s}], never a bare
    discriminator.  The code: [sendStatus] computes that payload and passes
    it as a second argument to [send], which has one parameter; so
    [sendStatus s] is [send "U:"] on every page, the frame "U:" differs
    from the frame with the payload, and what follows its separator is empty
    and is no JSON text. *)
Theorem sendStatus_sends_bare_discriminator (s : JSValue) (w : World) :
  sendStatus s w = send (js "U:") w
  ∧ js "U:" ≠ js "U:" ++ status_payload s
  ∧ drop 2 (js "U:") = []
  ∧ JSON_parse (drop 2 (js "U:")) = None.
Proof.
  split; [done|]. split; [|done].
  intros E. apply (status_payload_nonempty s).
  apply (app_inv_head (js "U:")). by rewrite app_nil_r.
Qed.

(** On a page whose connection is open, [sendStatus("ready")] leaves the
    two frames "L:" and "U:" on the wire. *)
Example sendStatus_ready_on_open_page :
  wire <$> sockets (fire (CallSendStatus (JString (js "ready"))) page1) !! 0%nat
  = Some [js "L:"; js "U:"].
Proof. vm_compute. reflexivity. Qed.

(** ** C2: the queue *)

(** C2.  A message passed to [send] while the connection is not open is
    appended to the queue and no socket transmits anything; until the next
    [open] event the queue only grows at its end; and when a connection of a
    reachable page opens, the queue is left empty and the socket has
    transmitted the registration followed by the queued messages, oldest
    first. *)
Theorem queued_while_closed_flushed_on_open :
  (∀ m w, ¬ connection_open w →
     ∃ w', send m w = (Normal (), w')
           ∧ messageQueue (this w') = messageQueue (this w) ++ [m]
           ∧ sockets w' = sockets w)
  ∧ (∀ w ev, (∀ i, ev ≠ SocketOpened i) →
       ∃ more, messageQueue (this (fire ev w)) = messageQueue (this w) ++ more)
  ∧ (∀ w i, Reachable w → enabled (SocketOpened i) w = true →
       messageQueue (this (fire (SocketOpened i) w)) = []
       ∧ wire <$> sockets (fire (SocketOpened i) w) !! i
         = Some (js "L:" :: messageQueue (this w))).
Proof.
  split; [|split].
  - intros m w Hn. rewrite send_eq, (not_open_cannot_transmit w Hn).
    by exists (queued m w).
  - apply queue_grows.
  - intros w i HR [s [Hs Hc]]%bool_decide_eq_true%state_of_Some.
    rewrite (fire_opened w i s) by (by try apply Reachable_Inv).
    split; [done|]. cbn.
    rewrite list_lookup_insert_eq by (by eapply lookup_lt_Some). done.
Qed.

Lemma queued_while_closed_flushed_on_open_witness :
  messageQueue (this page_offline) = [js "U:"; js "S:{}"]
  ∧ messageQueue (this (fire (SocketOpened 0) page_offline)) = []
  ∧ wire <$> sockets (fire (SocketOpened 0) page_offline) !! 0%nat
    = Some [js "L:"; js "U:"; js "S:{}"].
Proof.
  split; [reflexivity|].
  apply (proj2 (proj2 queued_while_closed_flushed_on_open) page_offline 0%nat).
  - repeat (apply Reachable_fire || apply Reachable_new); reflexivity.
  - reflexivity.
Defined.

(** ** C3: a type character outside the table *)

(** C3 as stated fails: "X" is none of the seven discriminators, and the
    message "X:{}" reaches the viewer, as an object of type "unknown". *)
Lemma unknown_type_is_not_dropped :
  table_get (take 1 (js "X:{}")) types = None
  ∧ posted page1 = []
  ∧ posted (fire (SocketMessage 0 (TextData (js "X:{}"))) page1)
    = [JObject [(js "type", JString (js "unknown")); (js "data", JObject [])]]
  ∧ ¬ dropped (TextData (js "X:{}")) page1.
Proof. vm_compute. repeat split; try reflexivity. discriminate. Qed.

(** C3, amended.  For every incoming text message of at least two code
    units whose first code unit is none of the seven discriminators, the
    handler raises no error and changes nothing on the page but the list of
    messages given to the viewer, which gains exactly one: an object of type
    "unknown" that carries the payload, parsed when it is JSON text and as
    text otherwise.  The connection stays as it was. *)
Theorem unknown_type_is_forwarded_as_unknown (d : jsstring) (w : World) :
  (2 ≤ length d)%nat → table_get (take 1 d) types = None →
  ws_onmessage (TextData d) w
  = (Normal (),
     with_posted
       (λ l, l ++ [JObject [(js "type", JString (js "unknown"));
                            match JSON_parse (drop 2 d) with
                            | Some parsed => (js "data", parsed)
                            | None => (js "text", JString (drop 2 d))
                            end]]) w).
Proof.
  intros Hd Hk. rewrite ws_onmessage_eq, parseMessage_long by done.
  by rewrite getMessageType_unknown.
Qed.

Lemma unknown_type_is_forwarded_as_unknown_witness :
  ws_onmessage (TextData (js "X:{}")) page1
  = (Normal (),
     with_posted
       (λ l, l ++ [JObject [(js "type", JString (js "unknown")); (js "data", JObject [])]])
       page1).
Proof.
  apply (unknown_type_is_forwarded_as_unknown (js "X:{}") page1).
  - vm_compute. lia.
  - reflexivity.
Defined.

(** ** C4: a payload that is no JSON text *)

(** C4 as stated fails: "hello" is no JSON text, and the COMMAND message
    "C:hello" reaches the viewer, with its payload as text; nothing is
    logged. *)
Lemma unparseable_payload_is_not_dropped :
  JSON_parse (drop 2 (js "C:hello")) = None
  ∧ posted page1 = []
  ∧ posted (fire (SocketMessage 0 (TextData (js "C:hello"))) page1)
    = [JObject [(js "type", JString (js "command")); (js "text", JString (js "hello"))]]
  ∧ console (fire (SocketMessage 0 (TextData (js "C:hello"))) page1) = console page1
  ∧ ¬ dropped (TextData (js "C:hello")) page1.
Proof. vm_compute. repeat split; try reflexivity. discriminate. Qed.

(** C4, amended.  For every incoming text message of at least two code
    units whose payload is absent or is no JSON text, whatever its type, the
    handler raises no error, logs nothing and changes nothing on the page but
    the list of messages given to the viewer, which gains exactly one: an
    object with the type of the message and the payload as text.  The
    connection stays as it was. *)
Theorem unparseable_payload_is_forwarded_as_text (d : jsstring) (w : World) :
  (2 ≤ length d)%nat → drop 2 d = [] ∨ JSON_parse (drop 2 d) = None →
  ws_onmessage (TextData d) w
  = (Normal (),
     with_posted
       (λ l, l ++ [JObject [(js "type", JString (getMessageType (take 1 d)));
                            (js "text", JString (drop 2 d))]]) w).
Proof.
  intros Hd Hp. rewrite ws_onmessage_eq, parseMessage_long by done.
  assert (JSON_parse (drop 2 d) = None) as ->; [|done].
  destruct Hp as [-> | ->]; done.
Qed.

Lemma unparseable_payload_is_forwarded_as_text_witness :
  ws_onmessage (TextData (js "D:")) page1
  = (Normal (),
     with_posted
       (λ l, l ++ [JObject [(js "type", JString (js "data")); (js "text", JString [])]])
       page1).
Proof.
  apply (unparseable_payload_is_forwarded_as_text (js "D:") page1).
  - vm_compute. lia.
  - left. reflexivity.
Defined.

(** ** C5: the seven kinds, and what [parseMessage] returns *)



(** ** C6: the buffers of the splash scene *)

(** C6 (the code departs from the claim).  The claim: a buffer of element
    type float32 or int32 decodes only when its byte length is a multiple of
    4, and each of the five buffers of [logo()] has such a length and so
    decodes without [MalformedBuffer].  The code: the Instance Table of
    [logo()] holds five buffers, three declared float32 and two int32, each
    with the base64 text "AQAAAAAA"; that text is the six bytes
    1 0 0 0 0 0, six leaves remainder 2 by the element size 4, and decoding
    each of the five buffers fails with [MalformedBuffer]. *)
Theorem logo_buffers_are_malformed :
  dtype <$> logo_buffers
  = [js "float32"; js "float32"; js "float32"; js "int32"; js "int32"]
  ∧ Forall (λ b, buffer b = js "AQAAAAAA"
                 ∧ element_size (dtype b) = Some 4%nat
                 ∧ payload_of b = Some [1; 0; 0; 0; 0; 0]%N
                 ∧ (6 `mod` 4 = 2)%nat
                 ∧ decode b = Some (inl MalformedBuffer)) logo_buffers.
Proof.
  split; [reflexivity|]. unfold logo_buffers.
  repeat (apply Forall_cons; split; [by vm_compute|]). apply Forall_nil_2.
Qed.

(** ** C7: the references of the splash scene *)

(** C7.  The scene of [logo()] has one Part; its Shape Reference is 0, the
    only [ref] anywhere in the payload; the Instance Table of the same
    payload has length 1, so every Shape Reference resolves within it; and
    every Part carries a Visibility State of exactly two booleans. *)
Theorem logo_references_resolve :
  length (parts_of logo) = 1%nat
  ∧ shape_ref <$> parts_of logo = [Some 0%Z]
  ∧ all_refs logo = [JNumber 0 0]
  ∧ length (instance_table logo) = 1%nat
  ∧ Forall (λ part, resolves logo part = true) (parts_of logo)
  ∧ Forall (λ part, ∃ shown expanded, visibility_state part = Some (shown, expanded))
           (parts_of logo).
Proof.
  repeat (split; [reflexivity|]). split.
  - repeat (apply Forall_cons; split; [by vm_compute|]). apply Forall_nil_2.
  - repeat (apply Forall_cons; split; [by exists true, true|]). apply Forall_nil_2.
Qed.

(** ** C8: the registration *)

(** C8.  When the connection of socket [i] of a reachable page opens,
    nothing had been transmitted on that socket, and the handler leaves on
    its wire the frame "L:" (two code units, nothing after the separator)
    followed by the messages that were queued, in their order; every other
    socket is as it was.  So exactly one registration is sent on the
    connection, ahead of every queued message. *)
Theorem register_is_first_frame_on_open (w : World) (i : ref) :
  Reachable w → enabled (SocketOpened i) w = true →
  length (js "L:") = 2%nat ∧ drop 2 (js "L:") = []
  ∧ (∃ u, sockets w !! i = Some (mkWebSocket u CONNECTING [])
          ∧ sockets (fire (SocketOpened i) w)
            = <[i := mkWebSocket u OPEN (js "L:" :: messageQueue (this w))]> (sockets w)).
Proof.
  intros HR [s [Hs Hc]]%bool_decide_eq_true%state_of_Some.
  pose proof (Reachable_Inv w HR) as HI.
  split; [done|]. split; [done|].
  exists (url s). rewrite (fire_opened w i s) by done.
  split; [|done].
  rewrite Hs. pose proof (inv_fresh _ _ _ _ _ _ HI i _ Hs Hc) as Hw.
  destruct s as [u rs wr]; cbn in *. by subst.
Qed.

Lemma register_is_first_frame_on_open_witness :
  sockets (fire (SocketOpened 0) page_offline)
  = [mkWebSocket (js "ws://localhost:3939/") OPEN [js "L:"; js "U:"; js "S:{}"]].
Proof.
  destruct (register_is_first_frame_on_open page_offline 0%nat) as (_ & _ & u & Hu & ->).
  - repeat (apply Reachable_fire || apply Reachable_new); reflexivity.
  - reflexivity.
  - injection Hu as <-. reflexivity.
Defined.

(** ** C9: [send] transmits on an open socket only *)

(** C9.  [send] never throws.  It hands the message to the socket exactly
    when its guard holds, and the guard holds exactly when [isConnected] is
    true and [this.ws] is a socket in state OPEN; the frame then goes out on
    that socket and the queue is untouched.  In every other state (no
    socket, or a socket that is connecting, closing or closed, or
    [isConnected] false) the message is appended to the queue and no socket
    transmits anything.  After [close()] the guard is false. *)
Theorem send_transmits_only_on_open_socket (m : jsstring) (w : World) :
  send m w = (Normal (), if can_transmit w then transmitted m w else queued m w)
  ∧ (can_transmit w = true ↔ isConnected (this w) = true ∧ connection_open w)
  ∧ (ws (this w) = None → can_transmit w = false)
  ∧ (∀ r s, ws (this w) = Some r → sockets w !! r = Some s →
            readyState s ≠ OPEN → can_transmit w = false)
  ∧ (∀ r s, can_transmit w = true → ws (this w) = Some r → sockets w !! r = Some s →
            sockets (transmitted m w)
            = <[r := mkWebSocket (url s) OPEN (wire s ++ [m])]> (sockets w))
  ∧ messageQueue (this (transmitted m w)) = messageQueue (this w)
  ∧ sockets (queued m w) = sockets w
  ∧ messageQueue (this (queued m w)) = messageQueue (this w) ++ [m]
  ∧ can_transmit (run close w) = false.
Proof.
  split; [|split; [apply can_transmit_true|]].
  - rewrite send_eq. destruct (can_transmit w) eqn:Hc; [|done].
    apply can_transmit_true in Hc as (_ & r & s & Hr & Hs & Ho).
    rewrite (this_ws_send_open m w r s) by done. unfold transmitted. by rewrite Hr.
  - split; [|split; [|split]].
    + intros Hr. unfold can_transmit. rewrite Hr. apply andb_false_r.
    + intros r s Hr Hs Hn. unfold can_transmit. rewrite Hr, Hs. cbn.
      rewrite bool_decide_eq_false_2; [apply andb_false_r|congruence].
    + intros r s (_ & r' & s' & Hr' & Hs' & Ho)%can_transmit_true Hr Hs.
      rewrite Hr in Hr'. injection Hr' as <-.
      rewrite Hs in Hs'. injection Hs' as <-.
      unfold transmitted. rewrite Hr.
      rewrite (sockets_transmit r [m] w s) by done. by rewrite Ho.
    + split; [|split; [done|split; [done|]]].
      * unfold transmitted. by destruct (ws (this w)).
      * unfold run. rewrite close_eq. unfold can_transmit.
        destruct (ws (this w)) as [r|]; [|done].
        destruct (sockets w !! r) as [s|]; [|done]. by destruct (readyState s).
Qed.

Lemma send_transmits_only_on_open_socket_witness :
  send (js "C:1") (constructor (js "localhost") (js "3939") true)
  = (Normal (), queued (js "C:1") (constructor (js "localhost") (js "3939") true))
  ∧ send (js "C:1") page1 = (Normal (), transmitted (js "C:1") page1)
  ∧ wire <$> sockets (transmitted (js "C:1") page1) !! 0%nat = Some [js "L:"; js "C:1"].
Proof.
  split; [|split].
  - exact (proj1 (send_transmits_only_on_open_socket (js "C:1")
                    (constructor (js "localhost") (js "3939") true))).
  - exact (proj1 (send_transmits_only_on_open_socket (js "C:1") page1)).
  - reflexivity.
Defined.

(** ** C10: the reconnect budget *)

(** C10.  On every reachable page the counter [reconnectAttempts] lies
    between 0 and [maxReconnectAttempts], which is 5, and every enabled
    event leaves it so.  A connection that closes, and a connect that fails,
    schedule one reconnect when the counter is below 5, after the new value
    of the counter times 1000 milliseconds, and schedule nothing when the
    counter has reached 5; a connection that opens resets the counter to 0;
    no other event changes the counter or schedules anything.  A first
    connect that fails leaves the counter at 1 and one reconnect after 1000
    milliseconds. *)
Theorem reconnect_attempts_bounded (w : World) (ev : Event) :
  Reachable w → enabled ev w = true →
  let a := reconnectAttempts (this w) in
  let w' := fire ev w in
  let a' := reconnectAttempts (this w') in
  ((0 ≤ a ≤ 5)%Z ∧ maxReconnectAttempts (this w) = 5%Z)
  ∧ ((0 ≤ a' ≤ 5)%Z ∧ maxReconnectAttempts (this w') = 5%Z)
  ∧ match ev with
    | SocketOpened _ => a' = 0%Z ∧ timers w' = timers w
    | SocketClosed _ _ => scheduled a (timers w) a' (timers w')
    | TimerFired k false => scheduled a (delete k (timers w)) a' (timers w')
    | TimerFired k true => a' = a ∧ timers w' = delete k (timers w)
    | SocketMessage _ _ | CallSend _ | CallSendStatus _ | CallClose
    | SocketClosing _ =>
        a' = a ∧ timers w' = timers w
    end
  ∧ (∀ host port,
       reconnectAttempts (this (constructor host port false)) = 1%Z
       ∧ timers (constructor host port false) = [1000%Z]
       ∧ reconnectAttempts (this (constructor host port true)) = 0%Z
       ∧ timers (constructor host port true) = []).
Proof.
  intros HR He a w' a'.
  pose proof (Reachable_Inv w HR) as HI.
  pose proof (Inv_fire w ev HI He) as HI'.
  split; [|split; [|split]].
  - destruct HI as [_ _ _ _ _ _ H7 H8 _]. subst a. rewrite H8 in H7. done.
  - destruct HI' as [_ _ _ _ _ _ H7 H8 _]. subst a' w'. rewrite H8 in H7. done.
  - subst a a' w'. destruct ev as [i|i data|i failed|k accepted|m|s| |i].
    + apply bool_decide_eq_true, state_of_Some in He as (s & Hs & Hc).
      by rewrite (fire_opened w i s).
    + cbn [fire]. unfold run. rewrite ws_onmessage_eq. by destruct data.
    + rewrite fire_closed.
      lazymatch goal with |- context [run attemptReconnect ?x] =>
        pose proof (attemptReconnect_scheduled x) as Hsch end.
      destruct Hsch as [Hsch _].
      * destruct failed; apply (inv_max _ _ _ _ _ _ HI).
      * destruct failed; apply (inv_delay _ _ _ _ _ _ HI).
      * by destruct failed.
    + rewrite fire_timer. destruct accepted; [done|].
      lazymatch goal with |- context [run attemptReconnect ?x] =>
        pose proof (attemptReconnect_scheduled x) as Hsch end.
      destruct Hsch as [Hsch _].
      * apply (inv_max _ _ _ _ _ _ HI).
      * apply (inv_delay _ _ _ _ _ _ HI).
      * exact Hsch.
    + cbn [fire]. unfold run. rewrite send_eq. destruct (can_transmit w) eqn:Hc; [|done].
      apply can_transmit_true in Hc as (_ & r & s & Hr & Hs & Ho).
      by rewrite (this_ws_send_open m w r s).
    + cbn [fire]. unfold run, sendStatus, call1. rewrite send_eq.
      destruct (can_transmit w) eqn:Hc; [|done].
      apply can_transmit_true in Hc as (_ & r & s' & Hr & Hs & Ho).
      by rewrite (this_ws_send_open _ w r s').
    + cbn [fire]. unfold run. rewrite close_eq.
      destruct (ws (this w)) as [r|]; [|done].
      destruct (sockets w !! r) as [s|]; [|done]. by destruct (readyState s).
    + done.
  - intros host port. by vm_compute.
Qed.

(** The first connect and five reconnects fail: the delays are 1000 to 5000
    milliseconds, and after the fifth failed reconnect nothing is scheduled. *)
Example reconnect_schedule :
  (λ n, let w := fail_again n (constructor (js "localhost") (js "3939") false) in
        (reconnectAttempts (this w), timers w)) <$> [0; 1; 2; 3; 4; 5]%nat
  = [(1, [1000]); (2, [2000]); (3, [3000]); (4, [4000]); (5, [5000]); (5, [])]%Z.
Proof. vm_compute. reflexivity. Qed.

Lemma reconnect_attempts_bounded_witness :
  let w := fail_again 4 (constructor (js "localhost") (js "3939") false) in
  (reconnectAttempts (this w) = 5%Z ∧ timers w = [5000%Z])
  ∧ scheduled (reconnectAttempts (this w)) (delete 0%nat (timers w))
              (reconnectAttempts (this (fire (TimerFired 0 false) w)))
              (timers (fire (TimerFired 0 false) w)).
Proof.
  intros w. split; [by vm_compute|].
  assert (Reachable w) as HR.
  { subst w. cbn [fail_again].
    repeat (apply Reachable_fire || apply Reachable_new); by vm_compute. }
  assert (enabled (TimerFired 0 false) w = true) as He by (by vm_compute).
  pose proof (reconnect_attempts_bounded w (TimerFired 0 false) HR He) as Hb.
  cbv zeta in Hb. destruct Hb as (_ & _ & Hb & _). exact Hb.
Defined.

(** * Further properties of [comms.js] *)

(** ** The connection state on reachable pages *)

Lemma settled_fire w ev :
  Inv w → settled w → enabled ev w = true → settled (fire ev w).
Proof.
  intros HI HS He. destruct ev as [i|i data|i failed|k accepted|m|s| |i].
  - apply bool_decide_eq_true, state_of_Some in He as (s & Hs & Hc).
    by rewrite (fire_opened w i s).
  - cbn [fire]. unfold run. rewrite ws_onmessage_eq. by destruct data.
  - rewrite fire_closed. unfold run at 1. rewrite attemptReconnect_eq. cbn [snd].
    intros [Hc _]%can_transmit_true. exfalso. revert Hc. by case_bool_decide.
  - rewrite fire_timer. destruct accepted.
    + intros (_ & r & s & Hr & Hs & Ho)%can_transmit_true. exfalso.
      cbn in Hr. injection Hr as <-. cbn in Hs.
      rewrite lookup_app_r, Nat.sub_diag in Hs by done.
      injection Hs as <-. done.
    + unfold run. rewrite attemptReconnect_eq. cbn [snd].
      case_bool_decide; intros Hc;
        (transitivity (messageQueue (this w)); [reflexivity|apply HS; exact Hc]).
  - cbn [fire]. unfold run. rewrite send_eq. destruct (can_transmit w) eqn:Hc.
    + apply can_transmit_true in Hc as (Hi & r & s & Hr & Hs & Ho).
      rewrite (this_ws_send_open m w r s) by done. cbn [snd].
      intros _. apply HS. apply can_transmit_true. split; [done|]. by exists r, s.
    + intros Hc'. exfalso. revert Hc'. unfold can_transmit in *. cbn. by rewrite Hc.
  - cbn [fire]. unfold run, sendStatus, call1. rewrite send_eq.
    destruct (can_transmit w) eqn:Hc.
    + apply can_transmit_true in Hc as (Hi & r & s' & Hr & Hs & Ho).
      rewrite (this_ws_send_open _ w r s') by done. cbn [snd].
      intros _. apply HS. apply can_transmit_true. split; [done|]. by exists r, s'.
    + intros Hc'. exfalso. revert Hc'. unfold can_transmit in *. cbn. by rewrite Hc.
  - cbn [fire]. unfold run. rewrite close_eq.
    intros [Hc _]%can_transmit_true. exfalso. revert Hc.
    destruct (ws (this w)) as [r|]; [|done].
    destruct (sockets w !! r) as [s|]; [|done]. by destruct (readyState s).
  - apply bool_decide_eq_true, state_of_Some in He as (s & Hs & Ho).
    cbn [fire]. rewrite (set_state_eq i CLOSING w s) by done.
    intros (Hi & r & sr & Hr & Hsr & Hor)%can_transmit_true. cbn in Hr, Hsr, Hi.
    apply HS. apply can_transmit_true. split; [done|].
    apply list_lookup_insert_Some in Hsr as [(_ & <- & _) | (_ & Hsr)]; [done|].
    by exists r, sr.
Qed.

Lemma Reachable_settled w : Reachable w → settled w.
Proof.
  induction 1 as [host port accepted | w ev HR IH He].
  - intros [Hc _]%can_transmit_true. exfalso. revert Hc.
    unfold constructor. rewrite connect_eq.
    destruct accepted; [done|]. rewrite attemptReconnect_eq. cbn [snd].
    by case_bool_decide.
  - apply settled_fire; [by apply Reachable_Inv|done|done].
Qed.

(** X1.  On every reachable page: [this.ws], when not null, is a socket of
    the page; a socket that is connecting or open is the one [this.ws]
    points to; at most one socket is not closed; at most one reconnect is
    scheduled, and only while every socket is closed; its delay is the
    counter times 1000 milliseconds, with the counter between 1 and 5. *)
Theorem at_most_one_live_connection (w : World) :
  Reachable w →
  (∀ r, ws (this w) = Some r → is_Some (sockets w !! r))
  ∧ (∀ i, state_of w i = Some CONNECTING ∨ state_of w i = Some OPEN → ws (this w) = Some i)
  ∧ (∀ i j ri rj, state_of w i = Some ri → state_of w j = Some rj →
                  ri ≠ CLOSED → rj ≠ CLOSED → i = j)
  ∧ (length (timers w) ≤ 1)%nat
  ∧ (timers w ≠ [] → ∀ i ri, state_of w i = Some ri → ri = CLOSED)
  ∧ (∀ d, d ∈ timers w →
          d = (reconnectAttempts (this w) * 1000)%Z
          ∧ (1 ≤ reconnectAttempts (this w) ≤ 5)%Z).
Proof.
  intros HR. destruct (Reachable_Inv w HR) as [H1 H2 H3 H4 H5 H6 H7 H8 H9].
  split; [|split; [|split; [|split; [|split]]]].
  - intros r Hr. apply lookup_lt_is_Some. eauto.
  - intros i [(s & Hs & Hc)%state_of_Some | (s & Hs & Hc)%state_of_Some]; eauto.
  - intros i j ri rj (si & Hi & <-)%state_of_Some (sj & Hj & <-)%state_of_Some. eauto.
  - destruct H5 as [-> | [-> _]]; cbn; lia.
  - intros Ht i ri (s & Hs & <-)%state_of_Some. eauto.
  - intros d Hd. destruct H5 as [E | [E Ha]]; rewrite E in Hd.
    + by apply elem_of_nil in Hd.
    + apply list_elem_of_singleton in Hd. subst d. rewrite H9. split; lia.
Qed.

Lemma at_most_one_live_connection_witness :
  ws (this page1) = Some 0%nat ∧ state_of page1 0 = Some OPEN ∧ timers page1 = [].
Proof.
  assert (Reachable page1) as HR
    by (repeat (apply Reachable_fire || apply Reachable_new); by vm_compute).
  destruct (at_most_one_live_connection page1 HR) as (_ & Hlive & _).
  split; [|by vm_compute]. apply Hlive. right. by vm_compute.
Defined.

(** X2.  On every reachable page, whenever the guard of [send] holds the
    queue is empty, so a message that is transmitted at once never overtakes
    a queued one; and while the queue is not empty [send] always queues. *)
Theorem queue_empty_whenever_send_transmits (w : World) :
  Reachable w →
  (can_transmit w = true → messageQueue (this w) = [])
  ∧ (messageQueue (this w) ≠ [] → ∀ m, send m w = (Normal (), queued m w)).
Proof.
  intros HR. pose proof (Reachable_settled w HR) as HS.
  split; [exact HS|].
  intros Hq m. rewrite send_eq. destruct (can_transmit w) eqn:Hc; [|done].
  by destruct (Hq (HS Hc)).
Qed.

Lemma queue_empty_whenever_send_transmits_witness :
  send (js "C:2") page_offline = (Normal (), queued (js "C:2") page_offline).
Proof.
  assert (Reachable page_offline) as HR
    by (repeat (apply Reachable_fire || apply Reachable_new); by vm_compute).
  destruct (queue_empty_whenever_send_transmits page_offline HR) as (_ & Hq).
  apply Hq. by vm_compute.
Defined.

(** The window the server opens by starting the closing handshake: the
    socket is closing, [isConnected] is still true, and [send] queues. *)
Example send_queues_during_closing_handshake :
  let w := fire (SocketClosing 0) page1 in
  isConnected (this w) = true ∧ state_of w 0 = Some CLOSING
  ∧ messageQueue (this (fire (CallSend (js "C:1")) w)) = [js "C:1"]
  ∧ wire <$> sockets (fire (CallSend (js "C:1")) w) !! 0%nat = Some [js "L:"].
Proof. by vm_compute. Qed.

(** ** Several messages in a row *)

Lemma send_all_snoc ms m w : send_all (ms ++ [m]) w = fire (CallSend m) (send_all ms w).
Proof. unfold send_all. by rewrite foldl_app. Qed.

Lemma Reachable_send_all ms w : Reachable w → Reachable (send_all ms w).
Proof.
  intros HR. induction ms as [|m ms IH] using rev_ind; [done|].
  rewrite send_all_snoc. by apply Reachable_fire.
Qed.

Lemma send_all_queued ms : ∀ w,
  can_transmit w = false →
  messageQueue (this (send_all ms w)) = messageQueue (this w) ++ ms
  ∧ sockets (send_all ms w) = sockets w
  ∧ ws (this (send_all ms w)) = ws (this w)
  ∧ can_transmit (send_all ms w) = false.
Proof.
  induction ms as [|m ms IH] using rev_ind; intros w Hc.
  - by rewrite app_nil_r.
  - rewrite send_all_snoc. destruct (IH w Hc) as (Hq & Hs & Hr & Hc').
    cbn [fire]. unfold run. rewrite send_eq, Hc'. cbn.
    rewrite Hq, Hs, Hr, <-(assoc_L (++)). by repeat split.
Qed.

Lemma send_all_transmitted ms : ∀ w r s,
  can_transmit w = true → ws (this w) = Some r → sockets w !! r = Some s →
  send_all ms w = transmit r ms w.
Proof.
  induction ms as [|m ms IH] using rev_ind; intros w r s Hc Hr Hs.
  - by rewrite transmit_nil.
  - rewrite send_all_snoc, (IH w r s) by done.
    apply can_transmit_true in Hc as (Hc & r' & s' & Hr' & Hs' & Ho).
    rewrite Hr in Hr'. injection Hr' as <-. rewrite Hs in Hs'. injection Hs' as <-.
    cbn [fire]. unfold run. rewrite send_eq.
    assert (can_transmit (transmit r ms w) = true) as ->.
    { apply can_transmit_true. split; [done|].
      exists r, (mkWebSocket (url s) (readyState s) (wire s ++ ms)).
      split; [done|]. split; [by apply transmit_lookup|done]. }
    rewrite (this_ws_send_open m _ r (mkWebSocket (url s) (readyState s) (wire s ++ ms)));
      [|done|by apply transmit_lookup|done].
    cbn [snd]. by rewrite transmit_app.
Qed.

(** X3.  Messages passed to [send] one after another keep their order: while
    the guard of [send] is false they all join the queue, behind what was
    queued, and no socket transmits; while it is true they all go out on
    [this.ws], behind what was transmitted, and nothing else on the page
    changes. *)
Theorem send_keeps_order (ms : list jsstring) (w : World) :
  (can_transmit w = false →
     messageQueue (this (send_all ms w)) = messageQueue (this w) ++ ms
     ∧ sockets (send_all ms w) = sockets w)
  ∧ (∀ r s, can_transmit w = true → ws (this w) = Some r → sockets w !! r = Some s →
       send_all ms w
       = with_sockets <[r := mkWebSocket (url s) OPEN (wire s ++ ms)]> w).
Proof.
  split.
  - intros Hc. by destruct (send_all_queued ms w Hc) as (? & ? & _).
  - intros r s Hc Hr Hs. rewrite (send_all_transmitted ms w r s) by done.
    apply can_transmit_true in Hc as (_ & r' & s' & Hr' & Hs' & Ho).
    rewrite Hr in Hr'. injection Hr' as <-. rewrite Hs in Hs'. injection Hs' as <-.
    unfold transmit, with_sockets. by rewrite Hs, Ho.
Qed.

Lemma send_keeps_order_witness :
  messageQueue (this (send_all [js "C:1"; js "C:2"] page_offline))
  = [js "U:"; js "S:{}"; js "C:1"; js "C:2"]
  ∧ sockets (send_all [js "C:1"; js "C:2"] page1)
    = [mkWebSocket (js "ws://localhost:3939/") OPEN [js "L:"; js "C:1"; js "C:2"]].
Proof.
  split.
  - refine (eq_trans (proj1 (proj1 (send_keeps_order _ page_offline) _)) _); by vm_compute.
  - refine (eq_trans (f_equal sockets
                        (proj2 (send_keeps_order _ page1) 0%nat
                           (mkWebSocket (js "ws://localhost:3939/") OPEN [js "L:"]) _ _ _)) _);
      by vm_compute.
Defined.

(** X4.  End to end: on a reachable page whose socket [i] is connecting,
    messages passed to [send] before the connection opens are all
    transmitted when it opens, after the registration and after the messages
    queued before them, in the order of the calls; the queue is then empty. *)
Theorem burst_before_open_is_delivered_in_order (ms : list jsstring) (w : World) (i : ref) :
  Reachable w → enabled (SocketOpened i) w = true →
  let w' := fire (SocketOpened i) (send_all ms w) in
  wire <$> sockets w' !! i = Some (js "L:" :: messageQueue (this w) ++ ms)
  ∧ messageQueue (this w') = [].
Proof.
  intros HR He w'.
  pose proof (Reachable_Inv w HR) as HI.
  pose proof He as (s & Hs & Hc)%bool_decide_eq_true%state_of_Some.
  assert (ws (this w) = Some i) as Hr by (eapply (inv_live _ _ _ _ _ _ HI); eauto).
  assert (can_transmit w = false) as Hn.
  { unfold can_transmit. rewrite Hr, Hs. cbn. rewrite Hc.
    rewrite bool_decide_eq_false_2 by done. apply andb_false_r. }
  destruct (send_all_queued ms w Hn) as (Hq & Hss & _ & _).
  assert (enabled (SocketOpened i) (send_all ms w) = true) as He'.
  { cbn. unfold state_of. rewrite Hss. exact He. }
  assert (sockets (send_all ms w) !! i = Some s) as Hs' by (by rewrite Hss).
  subst w'.
  rewrite (fire_opened (send_all ms w) i s)
    by (done || by apply Reachable_Inv, Reachable_send_all).
  split; [|done]. cbn.
  rewrite list_lookup_insert_eq by (by eapply lookup_lt_Some). cbn. by rewrite Hq.
Qed.

Lemma burst_before_open_is_delivered_in_order_witness :
  wire <$> sockets (fire (SocketOpened 0) (send_all [js "C:1"; js "C:2"] page_offline)) !! 0%nat
  = Some [js "L:"; js "U:"; js "S:{}"; js "C:1"; js "C:2"].
Proof.
  assert (Reachable page_offline) as HR
    by (repeat (apply Reachable_fire || apply Reachable_new); by vm_compute).
  assert (enabled (SocketOpened 0) page_offline = true) as He by (by vm_compute).
  pose proof (burst_before_open_is_delivered_in_order [js "C:1"; js "C:2"]
                page_offline 0%nat HR He) as Hb.
  cbv zeta in Hb. destruct Hb as [Hb _].
  refine (eq_trans Hb _). by vm_compute.
Defined.

(** ** No exception leaves a handler *)

(** X5.  On a reachable page every enabled event runs its handler or method
    to a normal completion: [this.ws.send] in the [open] handler never meets
    a null or a connecting socket, [close()] never meets a stale reference,
    and a failing [new WebSocket] is caught by [connect]. *)
Theorem no_handler_throws (w : World) (ev : Event) :
  Reachable w → enabled ev w = true →
  handler ev (arrival ev w) = (Normal (), fire ev w).
Proof.
  intros HR He. pose proof (Reachable_Inv w HR) as HI.
  destruct ev as [i|i data|i failed|k accepted|m|s| |i]; cbn [handler arrival].
  - pose proof He as (s & Hs & Hc)%bool_decide_eq_true%state_of_Some.
    assert (ws (this w) = Some i) as Hr by (eapply (inv_live _ _ _ _ _ _ HI); eauto).
    cbn [fire]. unfold run. rewrite (set_state_eq i OPEN w s) by done.
    rewrite (ws_onopen_open _ i (mkWebSocket (url s) OPEN (wire s))); try done.
    cbn. apply list_lookup_insert_eq. by eapply lookup_lt_Some.
  - cbn [fire]. unfold run. by rewrite ws_onmessage_eq.
  - rewrite fire_closed. unfold run, ws_onclose, ws_onerror, console_log, console_error.
    js_unfold. destruct failed; cbn; rewrite !attemptReconnect_eq; reflexivity.
  - cbn [fire]. unfold run. rewrite connect_eq. destruct accepted; [done|].
    by rewrite attemptReconnect_eq.
  - cbn [fire]. unfold run. rewrite send_eq. destruct (can_transmit w) eqn:Hc; [|done].
    apply can_transmit_true in Hc as (_ & r & s & Hr & Hs & Ho).
    by rewrite (this_ws_send_open m w r s).
  - cbn [fire]. unfold run, sendStatus, call1. rewrite send_eq.
    destruct (can_transmit w) eqn:Hc; [|done].
    apply can_transmit_true in Hc as (_ & r & s' & Hr & Hs & Ho).
    by rewrite (this_ws_send_open _ w r s').
  - cbn [fire]. unfold run. rewrite close_eq.
    destruct (ws (this w)) as [r|] eqn:Hr; [|done].
    destruct (sockets w !! r) as [s|] eqn:Hs; [done|].
    apply (inv_ws_valid _ _ _ _ _ _ HI) in Hr. apply lookup_ge_None in Hs. lia.
  - reflexivity.
Qed.

Lemma no_handler_throws_witness :
  handler (SocketOpened 0) (arrival (SocketOpened 0) page_offline)
  = (Normal (), fire (SocketOpened 0) page_offline).
Proof.
  assert (Reachable page_offline) as HR
    by (repeat (apply Reachable_fire || apply Reachable_new); by vm_compute).
  assert (enabled (SocketOpened 0) page_offline = true) as He by (by vm_compute).
  exact (no_handler_throws page_offline (SocketOpened 0) HR He).
Defined.

(** ** Giving up, and closing *)

(** X6.  Once every socket is closed and no reconnect is scheduled, the page
    stays so whatever happens: no socket event and no timer is enabled, no
    method opens a connection or schedules one, no socket transmits anything
    any more, and every message passed to [send] is queued.  A page reaches
    that state when a connection closes, or a reconnect fails, with the
    counter at 5. *)
Theorem giving_up_is_final (w : World) (ev : Event) :
  gave_up w → enabled ev w = true →
  gave_up (fire ev w)
  ∧ sockets (fire ev w) = sockets w
  ∧ can_transmit (fire ev w) = false
  ∧ (∀ i, ev ≠ SocketOpened i)
  ∧ (∀ k accepted, ev ≠ TimerFired k accepted).
Proof.
  intros [Ht Hall] He.
  assert (∀ w', sockets w' = sockets w → can_transmit w' = false) as Hno.
  { intros w' Hw'. unfold can_transmit. destruct (ws (this w')) as [r|]; [|apply andb_false_r].
    rewrite Hw'. destruct (sockets w !! r) as [s|] eqn:Hs; cbn.
    - rewrite (Hall r s Hs). rewrite bool_decide_eq_false_2 by done. apply andb_false_r.
    - rewrite bool_decide_eq_false_2 by done. apply andb_false_r. }
  assert (∀ w', sockets w' = sockets w → timers w' = timers w →
                gave_up w' ∧ sockets w' = sockets w ∧ can_transmit w' = false) as Hkeep.
  { intros w' Hs' Ht'. split; [split|split]; rewrite ?Hs', ?Ht'; auto. }
  assert (∀ i rs, state_of w i = Some rs → rs = CLOSED) as Hst.
  { intros i rs (s & Hs & <-)%state_of_Some. eauto. }
  destruct ev as [i|i data|i failed|k accepted|m|s| |i]; cbn in He.
  - apply bool_decide_eq_true, Hst in He. done.
  - apply orb_true_iff in He as [He|He]; apply bool_decide_eq_true, Hst in He; done.
  - apply andb_true_iff in He as [[rs Hrs]%bool_decide_eq_true Hn].
    rewrite negb_true_iff, bool_decide_eq_false in Hn.
    rewrite Hrs in Hn. apply Hst in Hrs. by subst.
  - apply bool_decide_eq_true in He. rewrite Ht in He. cbn in He. lia.
  - assert (sockets (fire (CallSend m) w) = sockets w
            ∧ timers (fire (CallSend m) w) = timers w) as [E1 E2].
    { cbn [fire]. unfold run. by rewrite send_eq, (Hno w eq_refl). }
    destruct (Hkeep _ E1 E2) as (? & ? & ?).
    split; [done|split; [done|split; [done|split; done]]].
  - assert (sockets (fire (CallSendStatus s) w) = sockets w
            ∧ timers (fire (CallSendStatus s) w) = timers w) as [E1 E2].
    { cbn [fire]. unfold run, sendStatus, call1. by rewrite send_eq, (Hno w eq_refl). }
    destruct (Hkeep _ E1 E2) as (? & ? & ?).
    split; [done|split; [done|split; [done|split; done]]].
  - assert (sockets (fire CallClose w) = sockets w
            ∧ timers (fire CallClose w) = timers w) as [E1 E2].
    { cbn [fire]. unfold run. rewrite close_eq.
      destruct (ws (this w)) as [r|]; [|done].
      destruct (sockets w !! r) as [s|] eqn:Hs; [|done].
      by rewrite (Hall r s Hs). }
    destruct (Hkeep _ E1 E2) as (? & ? & ?).
    split; [done|split; [done|split; [done|split; done]]].
  - apply bool_decide_eq_true, Hst in He. done.
Qed.

Lemma giving_up_is_final_witness :
  let w := fail_again 5 (constructor (js "localhost") (js "3939") false) in
  reconnectAttempts (this w) = 5%Z
  ∧ gave_up (fire (CallSend (js "C:1")) w)
  ∧ messageQueue (this (fire (CallSend (js "C:1")) w)) = [js "C:1"].
Proof.
  intros w. split; [by vm_compute|]. split; [|by vm_compute].
  assert (gave_up w) as Hg.
  { split; [by vm_compute|]. intros i s Hs. by vm_compute in Hs. }
  exact (proj1 (giving_up_is_final w (CallSend (js "C:1")) Hg eq_refl)).
Defined.

Lemma gave_up_after_attemptReconnect w :
  idle w → reconnectAttempts (this w) = 5%Z → gave_up (run attemptReconnect w).
Proof.
  intros [_ H2 H3 _ H5 _] Ha. unfold run. rewrite attemptReconnect_eq, Ha, H5. cbn [snd].
  rewrite bool_decide_eq_false_2 by lia. done.
Qed.

(** X7.  On a reachable page whose counter has reached 5, a connection that
    closes and a reconnect that fails leave every socket closed and schedule
    nothing: the page has given up (and by X6 stays so). *)
Theorem exhausted_budget_gives_up (w : World) (ev : Event) :
  Reachable w → enabled ev w = true → reconnectAttempts (this w) = 5%Z →
  (∃ i failed, ev = SocketClosed i failed) ∨ (∃ k, ev = TimerFired k false) →
  gave_up (fire ev w).
Proof.
  intros HR He Ha Hev. pose proof (Reachable_Inv w HR) as HI.
  destruct Hev as [(i & failed & ->) | (k & ->)].
  - cbn in He. apply andb_true_iff in He as [[rs Hrs]%bool_decide_eq_true Hn].
    rewrite negb_true_iff, bool_decide_eq_false in Hn.
    apply state_of_Some in Hrs as (s & Hs & <-).
    assert (readyState s ≠ CLOSED) as Hc.
    { intros Hc. apply Hn. apply state_of_Some. eauto. }
    rewrite fire_closed. rewrite (set_state_eq i CLOSED w s) by done.
    apply gave_up_after_attemptReconnect.
    + eapply (idle_after_close w i s); try done; by destruct failed.
    + by destruct failed.
  - apply bool_decide_eq_true in He.
    assert (timers w ≠ []) as Ht by (intros E; rewrite E in He; cbn in He; lia).
    rewrite fire_timer. apply gave_up_after_attemptReconnect; [|done].
    destruct HI as [H1 H2 H3 H4 H5 H6 H7 H8 H9].
    split; cbn; try done.
    + eauto.
    + destruct H5 as [E | [E _]]; [done|]. rewrite E in *. cbn in He.
      by replace k with 0%nat by lia.
Qed.

Lemma exhausted_budget_gives_up_witness :
  gave_up (fire (TimerFired 0 false)
             (fail_again 4 (constructor (js "localhost") (js "3939") false))).
Proof.
  apply exhausted_budget_gives_up.
  - cbn [fail_again]. repeat (apply Reachable_fire || apply Reachable_new); by vm_compute.
  - by vm_compute.
  - by vm_compute.
  - right. by exists 0%nat.
Defined.

(** X8.  [close()] does not stop the reconnecting.  On a reachable page
    whose connection is connecting or open and whose counter is below 5:
    [close()] sets [isConnected] false and [this.ws] null and starts the
    closing handshake; when the browser then reports the close, the [close]
    handler schedules a reconnect; and when that timer fires, [connect]
    creates a new connecting socket and stores it in [this.ws].  The queue
    is not touched on the way. *)
Theorem close_does_not_stop_reconnecting (w : World) (r : ref) :
  Reachable w → ws (this w) = Some r →
  state_of w r = Some CONNECTING ∨ state_of w r = Some OPEN →
  (reconnectAttempts (this w) < 5)%Z →
  let w1 := fire CallClose w in
  let w2 := fire (SocketClosed r false) w1 in
  let w3 := fire (TimerFired 0 true) w2 in
  (isConnected (this w1) = false ∧ ws (this w1) = None ∧ state_of w1 r = Some CLOSING)
  ∧ (enabled (SocketClosed r false) w1 = true
     ∧ timers w2 = [(1000 * (reconnectAttempts (this w) + 1))%Z])
  ∧ (enabled (TimerFired 0 true) w2 = true
     ∧ ws (this w3) = Some (length (sockets w))
     ∧ state_of w3 (length (sockets w)) = Some CONNECTING
     ∧ timers w3 = [])
  ∧ messageQueue (this w3) = messageQueue (this w).
Proof.
  intros HR Hr Hst Ha w1 w2 w3.
  pose proof (Reachable_Inv w HR) as HI.
  assert (∃ s, sockets w !! r = Some s
               ∧ (readyState s = CONNECTING ∨ readyState s = OPEN)) as (s & Hs & Hc).
  { destruct Hst as [(s & ? & ?)%state_of_Some | (s & ? & ?)%state_of_Some]; eauto. }
  assert (timers w = []) as Ht.
  { eapply (inv_core_unclosed_no_timer HI r s Hs). destruct Hc; congruence. }
  pose proof (inv_delay _ _ _ _ _ _ HI) as Hd.
  pose proof (inv_max _ _ _ _ _ _ HI) as Hm.
  assert (r < length (sockets w))%nat as Hlt by (by eapply lookup_lt_Some).
  assert (w1 = with_this (set_ws None)
                 (set_state r CLOSING (with_this (set_isConnected false) w))) as E1.
  { subst w1. cbn [fire]. unfold run. rewrite close_eq, Hr, Hs. by destruct Hc as [-> | ->]. }
  assert (w2 = run attemptReconnect
                 (with_this (set_isConnected false)
                    (with_console
                       (λ l, l ++ [(LOG, [JString (js "WebSocket disconnected")])])
                       (set_state r CLOSED w1)))) as E2.
  { subst w2. by rewrite fire_closed. }
  assert (w3 = snd (connect true (with_timers (delete 0%nat) w2))) as E3 by done.
  clearbody w3 w2 w1.
  rewrite (set_state_eq r CLOSING _ s) in E1 by done.
  assert (sockets w1 !! r = Some (mkWebSocket (url s) CLOSING (wire s))) as Hs1.
  { rewrite E1. cbn. by apply list_lookup_insert_eq. }
  rewrite (set_state_eq r CLOSED w1 _ Hs1) in E2.
  unfold run in E2. rewrite attemptReconnect_eq in E2. cbn [snd] in E2.
  assert (reconnectAttempts (this w1) = reconnectAttempts (this w)
          ∧ maxReconnectAttempts (this w1) = 5%Z
          ∧ reconnectDelay (this w1) = 1000%Z
          ∧ timers w1 = []
          ∧ messageQueue (this w1) = messageQueue (this w)
          ∧ length (sockets w1) = length (sockets w)) as (A1 & A2 & A3 & A4 & A5 & A6).
  { rewrite E1. cbn. by rewrite length_insert. }
  cbn in E2. rewrite ?A1, ?A2, ?A3 in E2.
  rewrite bool_decide_eq_true_2 in E2 by done. cbn in E2. rewrite ?A1, ?A3, ?A4 in E2.
  cbn in E2.
  rewrite connect_eq in E3. cbn [snd] in E3.
  split; [|split; [|split]].
  - rewrite E1. cbn. split; [done|]. split; [done|].
    unfold state_of. cbn. by rewrite list_lookup_insert_eq.
  - split.
    + unfold enabled, state_of. rewrite Hs1. reflexivity.
    + rewrite E2. cbn. by rewrite A4.
  - rewrite E3, E2. cbn. rewrite A4, !length_insert, A6. cbn.
    split; [done|]. split; [done|]. split; [|done].
    unfold state_of. cbn. rewrite lookup_app_r by (by rewrite !length_insert, A6).
    rewrite !length_insert, A6. by rewrite Nat.sub_diag.
  - rewrite E3, E2. cbn. exact A5.
Qed.

Lemma close_does_not_stop_reconnecting_witness :
  let w3 := fire (TimerFired 0 true) (fire (SocketClosed 0 false) (fire CallClose page1)) in
  ws (this w3) = Some 1%nat
  ∧ (readyState <$> sockets w3) = [CLOSED; CONNECTING].
Proof.
  assert (Reachable page1) as HR
    by (repeat (apply Reachable_fire || apply Reachable_new); by vm_compute).
  assert (ws (this page1) = Some 0%nat) as Hr by (by vm_compute).
  assert (state_of page1 0 = Some CONNECTING ∨ state_of page1 0 = Some OPEN) as Hst
    by (right; by vm_compute).
  assert (reconnectAttempts (this page1) < 5)%Z as Ha by (by vm_compute).
  pose proof (close_does_not_stop_reconnecting page1 0%nat HR Hr Hst Ha) as Hc.
  cbv zeta in Hc. destruct Hc as (_ & _ & (_ & Hws & _) & _).
  intros w3. split; [|by vm_compute].
  refine (eq_trans Hws _). by vm_compute.
Defined.

(** ** Where the sockets connect to *)

Lemma urls_insert (l : list WebSocket) u i x :
  (∀ j s, l !! j = Some s → url s = u) → url x = u →
  ∀ j s, <[i := x]> l !! j = Some s → url s = u.
Proof.
  intros Hall Hx j s [(-> & <- & ?) | (? & ?)]%list_lookup_insert_Some; eauto.
Qed.

Lemma urls_fire w ev :
  Inv w → enabled ev w = true →
  (∀ j s, sockets w !! j = Some s → url s = ws_url (this w)) →
  host (this (fire ev w)) = host (this w) ∧ port (this (fire ev w)) = port (this w)
  ∧ ∀ j s, sockets (fire ev w) !! j = Some s → url s = ws_url (this w).
Proof.
  intros HI He Hall. destruct ev as [i|i data|i failed|k accepted|m|s| |i].
  - apply bool_decide_eq_true, state_of_Some in He as (s & Hs & Hc).
    rewrite (fire_opened w i s) by done. cbn. split; [done|]. split; [done|].
    apply urls_insert; cbn; eauto.
  - cbn [fire]. unfold run. rewrite ws_onmessage_eq. by destruct data.
  - cbn in He. apply andb_true_iff in He as [[rs Hrs]%bool_decide_eq_true _].
    apply state_of_Some in Hrs as (s & Hs & _).
    rewrite fire_closed, (set_state_eq i CLOSED w s) by done.
    assert (∀ j s', <[i := mkWebSocket (url s) CLOSED (wire s)]> (sockets w) !! j = Some s' →
                    url s' = ws_url (this w)) as Hall' by (apply urls_insert; cbn; eauto).
    unfold run, ws_onerror, console_error. js_unfold. rewrite attemptReconnect_eq. cbn [snd].
    case_bool_decide; destruct failed; cbn; (split; [done|]); (split; [done|]); exact Hall'.
  - rewrite fire_timer. destruct accepted.
    + cbn. split; [done|]. split; [done|].
      intros j s [[_ Hs] | [_ <-]]%lookup_snoc_Some; eauto.
    + unfold run. rewrite attemptReconnect_eq. cbn [snd]. by case_bool_decide.
  - cbn [fire]. unfold run. rewrite send_eq. destruct (can_transmit w) eqn:Hc; [|done].
    apply can_transmit_true in Hc as (_ & r & s & Hr & Hs & Ho).
    rewrite (this_ws_send_open m w r s) by done. cbn [snd].
    rewrite (sockets_transmit r [m] w s) by done.
    split; [done|]. split; [done|]. apply urls_insert; cbn; eauto.
  - cbn [fire]. unfold run, sendStatus, call1. rewrite send_eq.
    destruct (can_transmit w) eqn:Hc; [|done].
    apply can_transmit_true in Hc as (_ & r & s' & Hr & Hs & Ho).
    rewrite (this_ws_send_open _ w r s') by done. cbn [snd].
    rewrite (sockets_transmit r _ w s') by done.
    split; [done|]. split; [done|]. apply urls_insert; cbn; eauto.
  - cbn [fire]. unfold run. rewrite close_eq.
    destruct (ws (this w)) as [r|] eqn:Hr; [|done].
    destruct (sockets w !! r) as [s|] eqn:Hs; [|done]. cbn [snd].
    destruct (readyState s); try done;
      rewrite (set_state_eq r CLOSING _ s) by done; cbn;
      (split; [done|]); (split; [done|]); apply urls_insert; cbn; eauto.
  - apply bool_decide_eq_true, state_of_Some in He as (s & Hs & _).
    cbn [fire]. rewrite (set_state_eq i CLOSING w s) by done. cbn.
    split; [done|]. split; [done|]. apply urls_insert; cbn; eauto.
Qed.

(** X9.  Every socket of a reachable page, the first and every reconnect,
    was created for the URL [ws://host:port/] of the fields [host] and
    [port], and no enabled event changes these two fields. *)
Theorem every_socket_targets_host_and_port (w : World) :
  Reachable w →
  (∀ j s, sockets w !! j = Some s → url s = ws_url (this w))
  ∧ (∀ ev, enabled ev w = true →
       host (this (fire ev w)) = host (this w) ∧ port (this (fire ev w)) = port (this w)).
Proof.
  intros HR.
  assert (∀ j s, sockets w !! j = Some s → url s = ws_url (this w)) as Hall.
  { induction HR as [host port accepted | w ev HR IH He].
    - unfold constructor. rewrite connect_eq. destruct accepted.
      + cbn. intros [|j] s Hs; [by injection Hs as <-|done].
      + rewrite attemptReconnect_eq. cbn [snd]. by case_bool_decide.
    - destruct (urls_fire w ev (Reachable_Inv w HR) He IH) as (Hh & Hp & Hall).
      intros j s Hs. rewrite (Hall j s Hs). unfold ws_url. by rewrite Hh, Hp. }
  split; [exact Hall|]. intros ev He.
  by destruct (urls_fire w ev (Reachable_Inv w HR) He Hall) as (? & ? & _).
Qed.

Lemma every_socket_targets_host_and_port_witness :
  let w := fire (TimerFired 0 true) (fire (SocketClosed 0 true) page1) in
  url (mkWebSocket (js "ws://localhost:3939/") CONNECTING []) = ws_url (this w).
Proof.
  intros w.
  assert (Reachable w) as HR
    by (repeat (apply Reachable_fire || apply Reachable_new); by vm_compute).
  assert (sockets w !! 1%nat = Some (mkWebSocket (js "ws://localhost:3939/") CONNECTING []))
    as Hs by (by vm_compute).
  exact (proj1 (every_socket_targets_host_and_port w HR) 1%nat _ Hs).
Defined.

(** ** What [parseMessage] looks at *)

(** X10.  [parseMessage] never looks at the second code unit of a message:
    any separator gives the same result as the colon. *)
Theorem parseMessage_ignores_the_separator (t c1 c2 : N) (rest : jsstring) :
  parseMessage (t :: c1 :: rest) = parseMessage (t :: c2 :: rest).
Proof. reflexivity. Qed.

(** X11.  A text message of fewer than two code units, the empty one
    included, is not dropped either: [parseMessage] returns [null] and the
    handler gives that [null] to the viewer. *)
Theorem short_message_posts_null (d : jsstring) (w : World) :
  (length d < 2)%nat →
  parseMessage d = JNull
  ∧ ws_onmessage (TextData d) w = (Normal (), with_posted (λ l, l ++ [JNull]) w).
Proof.
  intros Hd.
  assert (parseMessage d = JNull) as E.
  { unfold parseMessage. by destruct (Nat.ltb_spec (length d) 2) as [_|?]; [|lia]. }
  split; [done|]. by rewrite ws_onmessage_eq, E.
Qed.

Lemma short_message_posts_null_witness :
  posted (fire (SocketMessage 0 (TextData (js "C"))) page1) = [JNull].
Proof.
  refine (eq_trans (f_equal (λ x, posted (snd x))
                      (proj2 (short_message_posts_null (js "C") page1 _))) _).
  - vm_compute. lia.
  - by vm_compute.
Defined.

(** X12.  Handling a message never throws, never logs, and never touches
    the fields of the object, the sockets or the timers: its [catch] branch
    is never taken.  The viewer is given exactly one message for a text
    frame and none for a binary frame. *)
Theorem message_handler_only_posts (data : MessageData) (w : World) :
  ∃ w', ws_onmessage data w = (Normal (), w')
        ∧ this w' = this w ∧ sockets w' = sockets w ∧ timers w' = timers w
        ∧ console w' = console w
        ∧ posted w' = posted w ++ match data with
                                  | TextData s => [parseMessage s]
                                  | BinaryData _ => []
                                  end.
Proof.
  rewrite ws_onmessage_eq. eexists. split; [done|].
  destruct data; cbn; by rewrite ?app_nil_r.
Qed.

(** ** [close()] twice *)

(** X13.  [close()] leaves [isConnected] false, and a second [close()]
    changes nothing more. *)
Theorem close_is_idempotent (w : World) :
  isConnected (this (run close w)) = false
  ∧ run close (run close w) = run close w.
Proof.
  unfold run. rewrite !close_eq.
  destruct (ws (this w)) as [r|] eqn:Hr; cbn; [|by rewrite Hr].
  destruct (sockets w !! r) as [s|] eqn:Hs; cbn.
  - by destruct (readyState s).
  - by rewrite Hr, Hs.
Qed.

(** ** What has been transmitted *)

Lemma grow_insert (l : list WebSocket) i s0 x more0 :
  l !! i = Some s0 → url x = url s0 → wire x = wire s0 ++ more0 →
  ∀ j s, l !! j = Some s →
    ∃ s' more, <[i := x]> l !! j = Some s' ∧ url s' = url s ∧ wire s' = wire s ++ more
               ∧ (more ≠ [] → j = i ∧ s' = x).
Proof.
  intros Hi Hu Hw j s Hj. destruct (decide (i = j)) as [<-|Hne].
  - rewrite Hi in Hj. injection Hj as <-. exists x, more0.
    rewrite list_lookup_insert_eq by (by eapply lookup_lt_Some). done.
  - exists s, []. rewrite list_lookup_insert_ne by done. by rewrite app_nil_r.
Qed.

Lemma grow_same (l : list WebSocket) j s :
  l !! j = Some s →
  ∃ s' more, l !! j = Some s' ∧ url s' = url s ∧ wire s' = wire s ++ more
             ∧ (more ≠ [] → False).
Proof. intros Hj. exists s, []. by rewrite app_nil_r. Qed.

(** X14.  No enabled event on a reachable page removes a socket, changes its
    URL or alters what it has transmitted: the frames of a socket only grow
    at the end, and they grow only on the socket [this.ws] points to, which
    is then open.  A socket that was replaced or closed never transmits
    again. *)
Theorem transmitted_frames_only_grow (w : World) (ev : Event) (j : ref) (s : WebSocket) :
  Reachable w → enabled ev w = true → sockets w !! j = Some s →
  ∃ s' more,
    sockets (fire ev w) !! j = Some s' ∧ url s' = url s ∧ wire s' = wire s ++ more
    ∧ (more ≠ [] → ws (this (fire ev w)) = Some j ∧ readyState s' = OPEN).
Proof.
  intros HR He Hj. pose proof (Reachable_Inv w HR) as HI.
  destruct ev as [i|i data|i failed|k accepted|m|st| |i].
  - apply bool_decide_eq_true, state_of_Some in He as (si & Hs & Hc).
    assert (ws (this w) = Some i) as Hr by (eapply (inv_live _ _ _ _ _ _ HI); eauto).
    pose proof (inv_fresh _ _ _ _ _ _ HI i si Hs Hc) as Hw.
    rewrite (fire_opened w i si) by done. cbn.
    destruct (grow_insert (sockets w) i si
                (mkWebSocket (url si) OPEN (js "L:" :: messageQueue (this w)))
                (js "L:" :: messageQueue (this w)) Hs eq_refl
                ltac:(by cbn; rewrite Hw) j s Hj) as (s' & more & H1 & H2 & H3 & H4).
    exists s', more. split; [done|]. split; [done|]. split; [done|].
    intros [-> ->]%H4. done.
  - cbn [fire]. unfold run. rewrite ws_onmessage_eq.
    destruct (grow_same _ j s Hj) as (s' & more & H1 & H2 & H3 & H4).
    exists s', more. by destruct data.
  - cbn in He. apply andb_true_iff in He as [[rs Hrs]%bool_decide_eq_true _].
    apply state_of_Some in Hrs as (si & Hs & _).
    rewrite fire_closed, (set_state_eq i CLOSED w si) by done.
    destruct (grow_insert (sockets w) i si (mkWebSocket (url si) CLOSED (wire si)) []
                Hs eq_refl ltac:(by cbn; rewrite app_nil_r) j s Hj)
      as (s' & more & H1 & H2 & H3 & H4).
    assert (more = []) as ->.
    { destruct more; [done|]. destruct H4 as [-> ->]; [done|].
      cbn in H3. rewrite Hs in Hj. injection Hj as ->.
      apply (f_equal length) in H3. rewrite length_app in H3. cbn in H3. lia. }
    exists s', []. split; [|by split].
    unfold run, ws_onerror, console_error. js_unfold. rewrite attemptReconnect_eq. cbn [snd].
    case_bool_decide; destruct failed; exact H1.
  - rewrite fire_timer. exists s, []. rewrite app_nil_r. split; [|by split].
    destruct accepted.
    + cbn. by apply lookup_app_l_Some.
    + unfold run. rewrite attemptReconnect_eq. cbn [snd]. by case_bool_decide.
  - cbn [fire]. unfold run. rewrite send_eq. destruct (can_transmit w) eqn:Hc.
    + apply can_transmit_true in Hc as (_ & r & sr & Hr & Hs & Ho).
      rewrite (this_ws_send_open m w r sr) by done. cbn [snd].
      rewrite (sockets_transmit r [m] w sr) by done.
      destruct (grow_insert (sockets w) r sr
                  (mkWebSocket (url sr) (readyState sr) (wire sr ++ [m])) [m]
                  Hs eq_refl eq_refl j s Hj) as (s' & more & H1 & H2 & H3 & H4).
      exists s', more. split; [done|]. split; [done|]. split; [done|].
      intros [-> ->]%H4. done.
    + destruct (grow_same _ j s Hj) as (s' & more & H1 & H2 & H3 & H4).
      exists s', more. by repeat split.
  - cbn [fire]. unfold run, sendStatus, call1. rewrite send_eq.
    destruct (can_transmit w) eqn:Hc.
    + apply can_transmit_true in Hc as (_ & r & sr & Hr & Hs & Ho).
      rewrite (this_ws_send_open _ w r sr) by done. cbn [snd].
      rewrite (sockets_transmit r _ w sr) by done.
      destruct (grow_insert (sockets w) r sr
                  (mkWebSocket (url sr) (readyState sr) (wire sr ++ [js "U:"])) [js "U:"]
                  Hs eq_refl eq_refl j s Hj) as (s' & more & H1 & H2 & H3 & H4).
      exists s', more. split; [done|]. split; [done|]. split; [done|].
      intros [-> ->]%H4. done.
    + destruct (grow_same _ j s Hj) as (s' & more & H1 & H2 & H3 & H4).
      exists s', more. by repeat split.
  - cbn [fire]. unfold run. rewrite close_eq.
    destruct (ws (this w)) as [r|] eqn:Hr.
    2:{ exists s, []. rewrite app_nil_r. by repeat split. }
    destruct (sockets w !! r) as [sr|] eqn:Hs.
    2:{ exists s, []. rewrite app_nil_r. by repeat split. }
    cbn [snd].
    destruct (grow_insert (sockets w) r sr (mkWebSocket (url sr) CLOSING (wire sr)) []
                Hs eq_refl ltac:(by cbn; rewrite app_nil_r) j s Hj)
      as (s' & more & H1 & H2 & H3 & H4).
    assert (more = []) as ->.
    { destruct more; [done|]. destruct H4 as [-> ->]; [done|].
      cbn in H3. rewrite Hs in Hj. injection Hj as ->.
      apply (f_equal length) in H3. rewrite length_app in H3. cbn in H3. lia. }
    destruct (readyState sr) eqn:Hst.
    1,2: rewrite (set_state_eq r CLOSING _ sr) by done; exists s', []; by repeat split.
    all: exists s, []; rewrite app_nil_r; by repeat split.
  - apply bool_decide_eq_true, state_of_Some in He as (si & Hs & _).
    cbn [fire]. rewrite (set_state_eq i CLOSING w si) by done.
    destruct (grow_insert (sockets w) i si (mkWebSocket (url si) CLOSING (wire si)) []
                Hs eq_refl ltac:(by cbn; rewrite app_nil_r) j s Hj)
      as (s' & more & H1 & H2 & H3 & H4).
    assert (more = []) as ->.
    { destruct more; [done|]. destruct H4 as [-> ->]; [done|].
      cbn in H3. rewrite Hs in Hj. injection Hj as ->.
      apply (f_equal length) in H3. rewrite length_app in H3. cbn in H3. lia. }
    exists s', []. by repeat split.
Qed.

Lemma transmitted_frames_only_grow_witness :
  ∃ s' more,
    sockets (fire (CallSend (js "C:1")) page1) !! 0%nat = Some s'
    ∧ url s' = js "ws://localhost:3939/"
    ∧ wire s' = [js "L:"] ++ more
    ∧ (more ≠ [] → ws (this (fire (CallSend (js "C:1")) page1)) = Some 0%nat
                   ∧ readyState s' = OPEN).
Proof.
  assert (Reachable page1) as HR
    by (repeat (apply Reachable_fire || apply Reachable_new); by vm_compute).
  assert (sockets page1 !! 0%nat
          = Some (mkWebSocket (js "ws://localhost:3939/") OPEN [js "L:"])) as Hs
    by (by vm_compute).
  exact (transmitted_frames_only_grow page1 (CallSend (js "C:1")) 0%nat _ HR eq_refl Hs).
Defined.
